(** * Receptive-field calculator of [app.py]: embedding and verified properties

    The development follows the layout of the program:
    - [PyRuntime]: the pieces of the Python runtime the calculator relies on
      (exceptions, arbitrary-precision [int] as [Z], binary64 [float] with
      round-to-nearest-even, [/], [math.floor], [round(x, 3)]);
    - [Layers]: the class hierarchy [Layer] / [Conv2DLayer] / [PoolingLayer];
    - [Calculator]: [ReceptiveFieldCalculator], methods as state transformers;
    - [Routes]: the handlers of [FlaskApp.setup_routes] that drive the
      calculator;
    - [Spec]: the forward geometry scan as the specification words it;
    - the theorems. *)

From Stdlib Require Import ZArith QArith Qround Bool List String Lia Znumtheory.
From Stdlib Require Import Floats.SpecFloat.
From Stdlib Require Import Ascii DecimalString DecimalPos DecimalZ.
Import ListNotations.

Local Open Scope Z_scope.

(* ===================================================================== *)
(** ** The Python runtime                                                 *)
(* ===================================================================== *)

Module PyRuntime.

(** Exceptions the arithmetic of the calculator can raise. *)
Inductive exn : Type :=
| ZeroDivisionError
| OverflowError
| ValueError.

(** [str(e)] for the exceptions above, as CPython words them. *)
Inductive raised : Type :=
| Raised (e : exn) (msg : string).

Definition str (r : raised) : string :=
  match r with Raised _ msg => msg end.

Inductive result (A : Type) : Type :=
| Ok (a : A)
| Raise (r : raised).
Arguments Ok {A} a.
Arguments Raise {A} r.

Definition bind {A B} (c : result A) (k : A -> result B) : result B :=
  match c with
  | Ok a => k a
  | Raise r => Raise r
  end.

Declare Scope py_scope.
Delimit Scope py_scope with py.
Notation "x <- c ;; k" := (bind c (fun x => k))
  (at level 61, c at next level, right associativity) : py_scope.

(** *** binary64

    A finite double is an integer multiple of 2^-1074 (the smallest
    subnormal), so a finite float is kept as a sign and a magnitude
    counted in that unit; [1.0] is [Fin false (2^1074)].  The sign is kept
    apart so that [-0.0] exists. *)

Definition unit_bits : Z := 1074.
Definition one_units : Z := 2 ^ unit_bits.
Definition mant_bits : Z := 53.
(** magnitudes from [2^1024] on overflow. *)
Definition overflow_units : Z := 2 ^ (1024 + unit_bits).

Inductive float : Type :=
| Fin (neg : bool) (n : Z)
| Inf (neg : bool)
| NaN.

(** Nearest integer to [N / D] for [0 <= N], [0 < D], ties to even. *)
Definition rne (N D : Z) : Z :=
  let q := N / D in
  let r := N mod D in
  if 2 * r <? D then q
  else if D <? 2 * r then q + 1
  else if Z.even q then q else q + 1.

(** Number of low bits a magnitude of integer part [t] loses to fit in 53
    bits. *)
Definition drop_bits (t : Z) : Z := Z.max 0 (Z.log2 t + 1 - mant_bits).

(** The exact magnitude [N / D] (in units) rounded to the nearest
    magnitude with at most 53 significant bits, ties to even; no upper
    bound on the exponent yet. *)
Definition round_units (N D : Z) : Z :=
  let s := drop_bits (N / D) in
  rne N (D * 2 ^ s) * 2 ^ s.

(** Hardware rounding: overflow goes to infinity. *)
Definition round_float (neg : bool) (N D : Z) : float :=
  let n := round_units N D in
  if overflow_units <=? n then Inf neg else Fin neg n.

Definition is_neg (a : Z) : bool := a <? 0.

(** value of a finite float in units, signed *)
Definition signed (neg : bool) (n : Z) : Z := if neg then - n else n.

(** [int / int]: correctly rounded true division
    ([long_true_divide]). *)
Definition int_true_divide (a b : Z) : result float :=
  if b =? 0 then Raise (Raised ZeroDivisionError "division by zero")
  else
    let n := round_units (Z.abs a * one_units) (Z.abs b) in
    if overflow_units <=? n
    then Raise (Raised OverflowError
                  "integer division result too large for a float")
    else Ok (Fin (xorb (is_neg a) (is_neg b)) n).

(** Implicit [int -> float] conversion of mixed arithmetic
    ([PyLong_AsDouble]). *)
Definition float_of_int (a : Z) : result float :=
  let n := round_units (Z.abs a * one_units) 1 in
  if overflow_units <=? n
  then Raise (Raised OverflowError "int too large to convert to float")
  else Ok (Fin (is_neg a) n).

Definition fneg (x : float) : float :=
  match x with
  | Fin s n => Fin (negb s) n
  | Inf s => Inf (negb s)
  | NaN => NaN
  end.

(** [float + float] *)
Definition fadd (x y : float) : float :=
  match x, y with
  | NaN, _ | _, NaN => NaN
  | Inf sx, Inf sy => if Bool.eqb sx sy then Inf sx else NaN
  | Inf sx, Fin _ _ => Inf sx
  | Fin _ _, Inf sy => Inf sy
  | Fin sx nx, Fin sy ny =>
      if (nx =? 0) && (ny =? 0) then Fin (sx && sy) 0
      else
        let v := signed sx nx + signed sy ny in
        if v =? 0 then Fin false 0
        else round_float (is_neg v) (Z.abs v) 1
  end.

(** [float - float] *)
Definition fsub (x y : float) : float := fadd x (fneg y).

(** [float * float] *)
Definition fmul (x y : float) : float :=
  match x, y with
  | NaN, _ | _, NaN => NaN
  | Inf sx, Inf sy => Inf (xorb sx sy)
  | Inf sx, Fin sy ny => if ny =? 0 then NaN else Inf (xorb sx sy)
  | Fin sx nx, Inf sy => if nx =? 0 then NaN else Inf (xorb sx sy)
  | Fin sx nx, Fin sy ny => round_float (xorb sx sy) (nx * ny) one_units
  end.

(** [float - int], [float * int]: the [int] operand is converted first. *)
Definition fsub_int (x : float) (b : Z) : result float :=
  (y <- float_of_int b ;; Ok (fsub x y))%py.

Definition fmul_int (x : float) (b : Z) : result float :=
  (y <- float_of_int b ;; Ok (fmul x y))%py.

(** [math.floor] *)
Definition math_floor (x : float) : result Z :=
  match x with
  | Fin s n => Ok (signed s n / one_units)
  | Inf _ => Raise (Raised OverflowError
                      "cannot convert float infinity to integer")
  | NaN => Raise (Raised ValueError "cannot convert float NaN to integer")
  end.

(** [round(x, 3)]: the exact value is rounded to three decimals (ties to
    even), and the decimal is converted back to the nearest double. *)
Definition round3 (x : float) : result float :=
  match x with
  | Fin s n =>
      let thousandths := rne (n * 1000) one_units in
      let m := round_units (thousandths * one_units) 1000 in
      if overflow_units <=? m
      then Raise (Raised OverflowError
                    "rounded value too large to represent")
      else Ok (Fin s m)
  | _ => Ok x
  end.

(** The literal [0.5] and, more generally, [k / 2] for small [k]. *)
Definition halves (k : Z) : float :=
  Fin (is_neg k) (Z.abs k * 2 ^ (unit_bits - 1)).

(** Agreement with the IEEE 754 reference of the standard library. *)
Definition prec64 : Z := 53.
Definition emax64 : Z := 1024.

Definition to_spec (x : float) : spec_float :=
  match x with
  | Fin s n =>
      if n =? 0 then S754_zero s
      else binary_normalize prec64 emax64 (signed s n) (- unit_bits) s
  | Inf s => S754_infinity s
  | NaN => S754_nan
  end.

Definition spec_of_int (a : Z) : spec_float :=
  match a with
  | Z0 => S754_zero false
  | Zpos p => S754_finite false p 0
  | Zneg p => S754_finite true p 0
  end.

(** Comparison of a result of the model with a reference value. *)
Definition same_float (x : result float) (y : spec_float) : bool :=
  match x with
  | Ok f =>
      match to_spec f, y with
      | S754_finite s m e, S754_finite s' m' e' =>
          Bool.eqb s s' && Pos.eqb m m' && Z.eqb e e'
      | S754_zero s, S754_zero s' => Bool.eqb s s'
      | S754_infinity s, S754_infinity s' => Bool.eqb s s'
      | S754_nan, S754_nan => true
      | _, _ => false
      end
  | Raise _ => false
  end.

Definition div_agrees (ab : Z * Z) : bool :=
  same_float (int_true_divide (fst ab) (snd ab))
             (SFdiv prec64 emax64 (spec_of_int (fst ab))
                    (spec_of_int (snd ab))).

Definition conv_agrees (a : Z) : bool :=
  same_float (float_of_int a)
             (binary_normalize prec64 emax64 a 0 false).

Definition spec_of (x : result float) : spec_float :=
  match x with Ok f => to_spec f | Raise _ => S754_nan end.

Definition add_agrees (ab : Z * Z) : bool :=
  same_float (x <- float_of_int (fst ab) ;;
              h <- int_true_divide (snd ab) 2 ;;
              Ok (fadd x h))%py
             (SFadd prec64 emax64
                (spec_of (float_of_int (fst ab)))
                (spec_of (int_true_divide (snd ab) 2))).

Definition mul_agrees (ab : Z * Z) : bool :=
  same_float (h <- int_true_divide (fst ab) 2 ;; fmul_int h (snd ab))%py
             (SFmul prec64 emax64
                (spec_of (int_true_divide (fst ab) 2))
                (spec_of (float_of_int (snd ab)))).

End PyRuntime.

Import PyRuntime.
Local Open Scope string_scope.
Local Open Scope list_scope.
Local Open Scope Z_scope.
Local Open Scope py_scope.

(* ===================================================================== *)
(** ** The layer classes                                                  *)
(* ===================================================================== *)

Module Layers.

(** The class of a layer object together with the attributes that only
    that class sets ([groups], [pool_type]). *)
Inductive layer_class : Type :=
| LayerClass
| Conv2DLayerClass (groups : Z)
| PoolingLayerClass (pool_type : string)
| MaxPool2DLayerClass (pool_type : string)
| AvgPool2DLayerClass (pool_type : string).

Record Layer : Type := mkLayer {
  class_of : layer_class;
  name : string;
  kernel_size : Z;
  stride : Z;
  padding : Z;
  dilation : Z
}.

(** [Layer.__init__]: five assignments, nothing is checked. *)
Definition Layer_init (c : layer_class) (name : string)
           (kernel_size stride padding dilation : Z) : Layer :=
  {| class_of := c; name := name; kernel_size := kernel_size;
     stride := stride; padding := padding; dilation := dilation |}.

(** [Conv2DLayer.__init__] *)
Definition Conv2DLayer (kernel_size stride padding dilation groups : Z)
  : Layer :=
  Layer_init (Conv2DLayerClass groups) "Conv2D"
             kernel_size stride padding dilation.

(** [PoolingLayer.__init__]: the base initialiser is called with dilation
    [1]; the class tag is the one of the object being built. *)
Definition PoolingLayer_init (c : string -> layer_class)
           (pool_type : string) (kernel_size stride padding : Z) : Layer :=
  Layer_init (c pool_type) pool_type kernel_size stride padding 1.

Definition PoolingLayer := PoolingLayer_init PoolingLayerClass.

(** [MaxPool2DLayer.__init__] *)
Definition MaxPool2DLayer (kernel_size stride padding : Z) : Layer :=
  PoolingLayer_init MaxPool2DLayerClass "MaxPool2D"
                    kernel_size stride padding.

(** [AvgPool2DLayer.__init__] *)
Definition AvgPool2DLayer (kernel_size stride padding : Z) : Layer :=
  PoolingLayer_init AvgPool2DLayerClass "AvgPool2D"
                    kernel_size stride padding.

(** [isinstance(layer, Conv2DLayer)] *)
Definition isinstance_Conv2DLayer (l : Layer) : bool :=
  match class_of l with
  | Conv2DLayerClass _ => true
  | _ => false
  end.

(** [isinstance(layer, PoolingLayer)] *)
Definition isinstance_PoolingLayer (l : Layer) : bool :=
  match class_of l with
  | PoolingLayerClass _ | MaxPool2DLayerClass _ | AvgPool2DLayerClass _ =>
      true
  | _ => false
  end.

(** [Layer.get_effective_kernel_size] *)
Definition get_effective_kernel_size (self : Layer) : Z :=
  (kernel_size self - 1) * dilation self + 1.

(** [Layer.compute_output_size] *)
Definition compute_output_size (self : Layer) (input_size : Z) : result Z :=
  let effective_kernel := get_effective_kernel_size self in
  q <- int_true_divide (input_size + 2 * padding self - effective_kernel)
                       (stride self) ;;
  f <- math_floor q ;;
  Ok (f + 1).

End Layers.

Import Layers.

(* ===================================================================== *)
(** ** ReceptiveFieldCalculator                                           *)
(* ===================================================================== *)

Module Calculator.

(** The attributes of a calculator object. *)
Record ReceptiveFieldCalculator : Type := mkCalc {
  rf : Z;
  jump : Z;
  start : float;
  layers : list Layer;
  input_height : Z;
  input_width : Z;
  input_channels : Z
}.

(** One dictionary appended to [results]. *)
Record row : Type := mkRow {
  row_name : string;
  row_kernel_size : Z;
  row_stride : Z;
  row_padding : Z;
  row_dilation : Z;
  row_effective_kernel : Z;
  row_receptive_field : Z;
  row_jump : Z;
  row_start : float;
  row_input_height : Z;
  row_input_width : Z;
  row_input_channels : Z;
  row_output_height : Z;
  row_output_width : Z;
  row_output_channels : Z
}.

Record dimensions : Type := mkDims {
  height : Z;
  width : Z;
  channels : Z
}.

(** The dictionary [compute_current_state] returns. *)
Record trace : Type := mkTrace {
  trace_layers : list row;
  current_rf : Z;
  current_jump : Z;
  current_start : float;
  input_dimensions : dimensions;
  final_dimensions : dimensions
}.

(** A method runs on [self] and leaves an object behind, also when it
    raises. *)
Definition method (A : Type) : Type :=
  ReceptiveFieldCalculator -> ReceptiveFieldCalculator * result A.

(** [reset] *)
Definition reset : method unit := fun _ =>
  ({| rf := 1; jump := 1; start := halves 1; layers := [];
      input_height := 224; input_width := 224; input_channels := 3 |},
   Ok tt).

(** [__init__] *)
Definition new : ReceptiveFieldCalculator :=
  fst (reset {| rf := 0; jump := 0; start := NaN; layers := [];
                input_height := 0; input_width := 0;
                input_channels := 0 |}).

(** [set_input_dimensions] *)
Definition set_input_dimensions (height width channels : Z) : method unit :=
  fun self =>
    ({| rf := rf self; jump := jump self; start := start self;
        layers := layers self;
        input_height := height; input_width := width;
        input_channels := channels |},
     Ok tt).

(** The local variables of [compute_current_state]. *)
Record locals : Type := mkLocals {
  l_rf : Z;
  l_j : Z;
  l_start : float;
  l_results : list row;
  l_current_height : Z;
  l_current_width : Z;
  l_current_channels : Z
}.

(** [start + ((k_eff - 1) / 2 - p) * j] *)
Definition start_update (start : float) (k_eff p j : Z) : result float :=
  q <- int_true_divide (k_eff - 1) 2 ;;
  d <- fsub_int q p ;;
  m <- fmul_int d j ;;
  Ok (fadd start m).

(** The body of [for layer in self.layers]. *)
Definition loop_body (v : locals) (layer : Layer) : result locals :=
  let k_eff := get_effective_kernel_size layer in
  let p := padding layer in
  let s := stride layer in
  let rf_next := l_rf v + (k_eff - 1) * l_j v in
  start_next <- start_update (l_start v) k_eff p (l_j v) ;;
  let j_next := l_j v * s in
  output_height <- compute_output_size layer (l_current_height v) ;;
  output_width <- compute_output_size layer (l_current_width v) ;;
  let output_channels :=
    if isinstance_Conv2DLayer layer
    then l_current_channels v
    else l_current_channels v in
  rounded <- round3 start_next ;;
  Ok {| l_rf := rf_next;
        l_j := j_next;
        l_start := start_next;
        l_results :=
          l_results v ++
          [ {| row_name := name layer;
               row_kernel_size := kernel_size layer;
               row_stride := stride layer;
               row_padding := padding layer;
               row_dilation := dilation layer;
               row_effective_kernel := k_eff;
               row_receptive_field := rf_next;
               row_jump := j_next;
               row_start := rounded;
               row_input_height := l_current_height v;
               row_input_width := l_current_width v;
               row_input_channels := l_current_channels v;
               row_output_height := output_height;
               row_output_width := output_width;
               row_output_channels := output_channels |} ];
        l_current_height := output_height;
        l_current_width := output_width;
        l_current_channels := output_channels |}.

(** A [for] loop over a list: the body runs in order and the first
    exception leaves the loop. *)
Fixpoint for_each {A S : Type} (body : S -> A -> result S)
         (xs : list A) (v : S) : result S :=
  match xs with
  | [] => Ok v
  | x :: xs' => v' <- body v x ;; for_each body xs' v'
  end.

(** [compute_current_state] *)
Definition compute_current_state : method trace := fun self =>
  (self,
   v <- for_each loop_body (layers self)
          {| l_rf := 1; l_j := 1; l_start := halves 1; l_results := [];
             l_current_height := input_height self;
             l_current_width := input_width self;
             l_current_channels := input_channels self |} ;;
   rounded <- round3 (l_start v) ;;
   Ok {| trace_layers := l_results v;
         current_rf := l_rf v;
         current_jump := l_j v;
         current_start := rounded;
         input_dimensions :=
           {| height := input_height self;
              width := input_width self;
              channels := input_channels self |};
         final_dimensions :=
           {| height := l_current_height v;
              width := l_current_width v;
              channels := l_current_channels v |} |}).

(** [add_layer]: [self.layers.append(layer)], then the trace. *)
Definition add_layer (layer : Layer) : method trace := fun self =>
  compute_current_state
    {| rf := rf self; jump := jump self; start := start self;
       layers := layers self ++ [layer];
       input_height := input_height self;
       input_width := input_width self;
       input_channels := input_channels self |}.

(** [get_layer_summary] *)
Definition get_layer_summary : method (list row) := fun self =>
  let '(self', r) := compute_current_state self in
  (self', t <- r ;; Ok (trace_layers t)).

End Calculator.

Import Calculator.

(* ===================================================================== *)
(** ** The routes of FlaskApp that drive the calculator                   *)
(* ===================================================================== *)

Module Routes.

(** What a handler answers: a JSON body and a status. *)
Inductive response : Type :=
| JsonTrace (t : trace)                  (* jsonify(result), 200 *)
| JsonMessage (message : string)         (* {"message": ...}, 200 *)
| JsonError (error : string) (status : Z) (* {"error": ...}, status *)
| Unhandled (r : raised).                (* exception leaves the handler *)

Definition handler : Type :=
  ReceptiveFieldCalculator -> ReceptiveFieldCalculator * response.

(** [except Exception as e: return jsonify({"error": str(e)}), 400] *)
Definition caught (r : result trace) : response :=
  match r with
  | Ok t => JsonTrace t
  | Raise e => JsonError (str e) 400
  end.

(** [/api/set_input_dimensions], on the three integers read from the
    request. *)
Definition api_set_input_dimensions (height width channels : Z) : handler :=
  fun calculator =>
    if (height <=? 0) || (width <=? 0) || (channels <=? 0)
    then (calculator, JsonError "Dimensions must be positive integers" 400)
    else
      let '(c1, _) := set_input_dimensions height width channels calculator in
      let '(c2, result) := compute_current_state c1 in
      (c2, caught result).

(** The layer object [/api/add_layer] builds for a [type] string. *)
Definition build_layer (layer_type : string)
           (kernel_size stride padding dilation : Z) : option Layer :=
  if String.eqb layer_type "conv"
  then Some (Conv2DLayer kernel_size stride padding dilation 1)
  else if String.eqb layer_type "maxpool"
  then Some (MaxPool2DLayer kernel_size stride padding)
  else if String.eqb layer_type "avgpool"
  then Some (AvgPool2DLayer kernel_size stride padding)
  else None.

(** [/api/add_layer] *)
Definition api_add_layer (layer_type : string)
           (kernel_size stride padding dilation : Z) : handler :=
  fun calculator =>
    match build_layer layer_type kernel_size stride padding dilation with
    | None => (calculator, JsonError "Invalid layer type" 400)
    | Some layer =>
        let '(c1, result) := add_layer layer calculator in
        (c1, caught result)
    end.

(** [/api/reset] *)
Definition api_reset : handler := fun calculator =>
  let '(c1, _) := reset calculator in
  (c1, JsonMessage "Reset successful").

(** [/api/current_state]: no [try] around the call. *)
Definition api_current_state : handler := fun calculator =>
  let '(c1, result) := compute_current_state calculator in
  (c1, match result with
       | Ok t => JsonTrace t
       | Raise e => Unhandled e
       end).

(** Requests that reach the calculator, and the run of a request
    sequence from a given object. *)
Inductive request : Type :=
| SetInputDimensions (height width channels : Z)
| AddLayer (layer_type : string) (kernel_size stride padding dilation : Z)
| Reset
| CurrentState.

Definition handle (r : request) : handler :=
  match r with
  | SetInputDimensions h w c => api_set_input_dimensions h w c
  | AddLayer t k s p d => api_add_layer t k s p d
  | Reset => api_reset
  | CurrentState => api_current_state
  end.

Fixpoint serve (rs : list request) (calculator : ReceptiveFieldCalculator)
  : ReceptiveFieldCalculator :=
  match rs with
  | [] => calculator
  | r :: rs' => serve rs' (fst (handle r calculator))
  end.

End Routes.

Import Routes.

(* ===================================================================== *)
(** ** The specification's reading                                        *)
(* ===================================================================== *)

Module Spec.

(** "(kernel_size - 1) x dilation + 1" *)
Definition effective_kernel_size (l : Layer) : Z :=
  (kernel_size l - 1) * dilation l + 1.

(** "floor((input_size + 2 x padding - effective_kernel_size) / stride)
    + 1", the quotient taken in the rationals and then floored. *)
Definition output_size (l : Layer) (input_size : Z) : Z :=
  Qfloor (inject_Z (input_size + 2 * padding l - effective_kernel_size l)
          / inject_Z (stride l))%Q + 1.

(** The running scalars of the forward pass. *)
Record scalars : Type := mkScalars {
  s_rf : Z;
  s_jump : Z;
  s_start : float;
  s_height : Z;
  s_width : Z;
  s_channels : Z
}.

(** "rf = 1, jump j = 1, start = 0.5, running dimensions initialised to
    the declared input". *)
Definition initial (d : dimensions) : scalars :=
  {| s_rf := 1; s_jump := 1; s_start := halves 1;
     s_height := height d; s_width := width d; s_channels := channels d |}.

(** "start + ((k_eff - 1)/2 - padding) x j" on Python numbers. *)
Definition start_next (start : float) (k_eff padding j : Z) : result float :=
  half <- int_true_divide (k_eff - 1) 2 ;;
  off <- fsub_int half padding ;;
  scaled <- fmul_int off j ;;
  Ok (fadd start scaled).

(** One step of the pass: the updated scalars and the row recorded for
    the layer. *)
Definition step (sc : scalars) (l : Layer) : result (scalars * row) :=
  let k_eff := effective_kernel_size l in
  let rf_next := s_rf sc + (k_eff - 1) * s_jump sc in
  st_next <- start_next (s_start sc) k_eff (padding l) (s_jump sc) ;;
  let j_next := s_jump sc * stride l in
  out_h <- compute_output_size l (s_height sc) ;;
  out_w <- compute_output_size l (s_width sc) ;;
  Ok ({| s_rf := rf_next; s_jump := j_next; s_start := st_next;
         s_height := out_h; s_width := out_w;
         s_channels := s_channels sc |},
      {| row_name := name l;
         row_kernel_size := kernel_size l;
         row_stride := stride l;
         row_padding := padding l;
         row_dilation := dilation l;
         row_effective_kernel := k_eff;
         row_receptive_field := rf_next;
         row_jump := j_next;
         row_start := st_next;
         row_input_height := s_height sc;
         row_input_width := s_width sc;
         row_input_channels := s_channels sc;
         row_output_height := out_h;
         row_output_width := out_w;
         row_output_channels := s_channels sc |}).

(** The scan: rows in sequence order, and the scalars after the last
    layer. *)
Fixpoint scan (sc : scalars) (ls : list Layer)
  : result (list row * scalars) :=
  match ls with
  | [] => Ok ([], sc)
  | l :: ls' =>
      sr <- step sc l ;;
      rest <- scan (fst sr) ls' ;;
      Ok (snd sr :: fst rest, snd rest)
  end.


End Spec.

(* ===================================================================== *)
(** ** Invariants and abstractions used by the proofs                     *)
(* ===================================================================== *)

Module Invariants.

(** Magnitudes that need no rounding: at most 53 significant bits. *)
Definition representable (n : Z) : Prop :=
  exists m s, 0 <= s /\ 0 <= m <= 2 ^ mant_bits /\ n = m * 2 ^ s.


(** A float that is infinite, not a number, or a well-formed finite
    double whose magnitude is a multiple of [2^e] units. *)
Definition on_grid (e : Z) (x : float) : Prop :=
  match x with
  | Fin _ n => 0 <= n < overflow_units /\ representable n /\ (2 ^ e | n)
  | _ => True
  end.

Definition half_bits : Z := unit_bits - 1.


(** The local variables that hold given rows and running scalars. *)
Definition locals_of (rows : list row) (sc : Spec.scalars) : locals :=
  {| l_rf := Spec.s_rf sc;
     l_j := Spec.s_jump sc;
     l_start := Spec.s_start sc;
     l_results := rows;
     l_current_height := Spec.s_height sc;
     l_current_width := Spec.s_width sc;
     l_current_channels := Spec.s_channels sc |}.

Definition dims_of (self : ReceptiveFieldCalculator) : dimensions :=
  {| height := input_height self;
     width := input_width self;
     channels := input_channels self |}.


(** A row that passes the channel count [c] through. *)
Definition passes_channels (c : Z) (r : row) : Prop :=
  row_output_channels r = row_input_channels r /\
  row_input_channels r = c.


(** A finite float whose exact value is [a / 2]. *)
Definition half_value (x : float) (a : Z) : Prop :=
  match x with
  | Fin s n => 0 <= n /\ signed s n = a * 2 ^ half_bits
  | _ => False
  end.

(** A layer is a convolution, or it stores dilation [1] and its effective
    kernel is its kernel. *)
Definition pooling_undilated (l : Layer) : Prop :=
  isinstance_Conv2DLayer l = true \/
  (isinstance_PoolingLayer l = true /\ dilation l = 1 /\
   get_effective_kernel_size l = kernel_size l).



(** Calls on the calculator object that change it. *)
Inductive call : Type :=
| CallAddLayer (l : Layer)
| CallSetInputDimensions (height width channels : Z).

Definition run_call (c : call) (self : ReceptiveFieldCalculator)
  : ReceptiveFieldCalculator :=
  match c with
  | CallAddLayer l => fst (add_layer l self)
  | CallSetInputDimensions h w ch => fst (set_input_dimensions h w ch self)
  end.

Fixpoint run_calls (cs : list call) (self : ReceptiveFieldCalculator)
  : ReceptiveFieldCalculator :=
  match cs with
  | [] => self
  | c :: cs' => run_calls cs' (run_call c self)
  end.

(** The trace of the default state, and the rows of the two-layer
    example (a 3x3 convolution, then a 2x2 max pooling of stride 2). *)
Definition default_dimensions : dimensions :=
  {| height := 224; width := 224; channels := 3 |}.

Definition default_trace : trace :=
  {| trace_layers := [];
     current_rf := 1;
     current_jump := 1;
     current_start := halves 1;
     input_dimensions := default_dimensions;
     final_dimensions := default_dimensions |}.

Definition conv3_row : row :=
  {| row_name := "Conv2D"; row_kernel_size := 3; row_stride := 1;
     row_padding := 0; row_dilation := 1; row_effective_kernel := 3;
     row_receptive_field := 3; row_jump := 1; row_start := halves 3;
     row_input_height := 224; row_input_width := 224;
     row_input_channels := 3;
     row_output_height := 222; row_output_width := 222;
     row_output_channels := 3 |}.

Definition maxpool2_row : row :=
  {| row_name := "MaxPool2D"; row_kernel_size := 2; row_stride := 2;
     row_padding := 0; row_dilation := 1; row_effective_kernel := 2;
     row_receptive_field := 4; row_jump := 2; row_start := halves 4;
     row_input_height := 222; row_input_width := 222;
     row_input_channels := 3;
     row_output_height := 111; row_output_width := 111;
     row_output_channels := 3 |}.

End Invariants.

Import Invariants.

(* ===================================================================== *)
(** ** Notions for further properties of the trace and the routes         *)
(* ===================================================================== *)

Module Extensions.

(** What a row repeats of the layer it was computed for. *)
Definition row_descriptor (r : row) : string * Z * Z * Z * Z * Z :=
  (row_name r, row_kernel_size r, row_stride r, row_padding r,
   row_dilation r, row_effective_kernel r).

Definition layer_descriptor (l : Layer) : string * Z * Z * Z * Z * Z :=
  (name l, kernel_size l, stride l, padding l, dilation l,
   (kernel_size l - 1) * dilation l + 1).

Definition row_input (r : row) : dimensions :=
  {| height := row_input_height r; width := row_input_width r;
     channels := row_input_channels r |}.

Definition row_output (r : row) : dimensions :=
  {| height := row_output_height r; width := row_output_width r;
     channels := row_output_channels r |}.

(** Rows that chain: the first takes [d], each next one takes what the
    previous one gives, and [final] is what the last one gives. *)
Fixpoint chained (d : dimensions) (rows : list row) (final : dimensions)
  : Prop :=
  match rows with
  | [] => final = d
  | r :: rows' => row_input r = d /\ chained (row_output r) rows' final
  end.

(** The product of the strides of a layer sequence. *)
Definition prod_strides (ls : list Layer) : Z :=
  fold_right Z.mul 1 (map stride ls).

Definition no_layer : Layer := Layer_init LayerClass "" 1 1 0 1.

(** 1 + sum over the layers of (k_eff - 1) times the product of the
    strides before the layer. *)
Definition rf_closed (ls : list Layer) : Z :=
  1 + fold_right Z.add 0
        (map (fun i => (get_effective_kernel_size (nth i ls no_layer) - 1)
                       * prod_strides (firstn i ls))
             (seq 0 (List.length ls))).

(** Receptive fields that never shrink from [rf] on, with jumps that stay
    positive. *)
Fixpoint rf_grows (rf : Z) (rows : list row) : Prop :=
  match rows with
  | [] => True
  | r :: rows' =>
      rf <= row_receptive_field r /\ 1 <= row_jump r /\
      rf_grows (row_receptive_field r) rows'
  end.

(** Parameters in the range the layers are meant for. *)
Definition positive_layer (l : Layer) : Prop :=
  1 <= kernel_size l /\ 1 <= stride l /\ 1 <= dilation l.

(** Layers with the same geometry, whatever their class and name. *)
Definition same_geometry (l1 l2 : Layer) : Prop :=
  kernel_size l1 = kernel_size l2 /\ stride l1 = stride l2 /\
  padding l1 = padding l2 /\ dilation l1 = dilation l2.

Definition forget_name (r : row) : row :=
  {| row_name := "";
     row_kernel_size := row_kernel_size r;
     row_stride := row_stride r;
     row_padding := row_padding r;
     row_dilation := row_dilation r;
     row_effective_kernel := row_effective_kernel r;
     row_receptive_field := row_receptive_field r;
     row_jump := row_jump r;
     row_start := row_start r;
     row_input_height := row_input_height r;
     row_input_width := row_input_width r;
     row_input_channels := row_input_channels r;
     row_output_height := row_output_height r;
     row_output_width := row_output_width r;
     row_output_channels := row_output_channels r |}.

Definition forget_names (t : trace) : trace :=
  {| trace_layers := map forget_name (trace_layers t);
     current_rf := current_rf t;
     current_jump := current_jump t;
     current_start := current_start t;
     input_dimensions := input_dimensions t;
     final_dimensions := final_dimensions t |}.

Definition map_result {A B : Type} (f : A -> B) (r : result A) : result B :=
  match r with
  | Ok a => Ok (f a)
  | Raise e => Raise e
  end.

(** The calculator with another layer list. *)
Definition with_layers (self : ReceptiveFieldCalculator) (ls : list Layer)
  : ReceptiveFieldCalculator :=
  {| rf := rf self; jump := jump self; start := start self;
     layers := ls;
     input_height := input_height self;
     input_width := input_width self;
     input_channels := input_channels self |}.



(** The trace a scan result is assembled into. *)
Definition trace_of (d : dimensions) (rows : list row) (fin : Spec.scalars)
  : trace :=
  {| trace_layers := rows;
     current_rf := Spec.s_rf fin;
     current_jump := Spec.s_jump fin;
     current_start := Spec.s_start fin;
     input_dimensions := d;
     final_dimensions :=
       {| height := Spec.s_height fin; width := Spec.s_width fin;
          channels := Spec.s_channels fin |} |}.

(** [str(n)] for an [int]: decimal digits, with a minus sign when
    negative. *)
Definition py_str_int (z : Z) : string :=
  NilZero.string_of_int (Z.to_int z).

(** [Conv2DLayer.__str__] *)
Definition Conv2DLayer_str (self : Layer) : string :=
  String.append "Conv2D(k="
    (String.append (py_str_int (kernel_size self))
       (String.append ", s="
          (String.append (py_str_int (stride self))
             (String.append ", p="
                (String.append (py_str_int (padding self))
                   (String.append ", d="
                      (String.append (py_str_int (dilation self)) ")"))))))).

(** [PoolingLayer.__str__], on the [pool_type] the object holds *)
Definition PoolingLayer_str (pool_type : string) (self : Layer) : string :=
  String.append pool_type
    (String.append "(k="
       (String.append (py_str_int (kernel_size self))
          (String.append ", s="
             (String.append (py_str_int (stride self))
                (String.append ", p="
                   (String.append (py_str_int (padding self)) ")")))))).

(** [str(layer)] by the class of the object; the base class defines no
    [__str__] of its own. *)
Definition layer_str (l : Layer) : option string :=
  match class_of l with
  | LayerClass => None
  | Conv2DLayerClass _ => Some (Conv2DLayer_str l)
  | PoolingLayerClass pool_type
  | MaxPool2DLayerClass pool_type
  | AvgPool2DLayerClass pool_type => Some (PoolingLayer_str pool_type l)
  end.


(** A string in which the character [c] does not occur. *)
Fixpoint free_of (c : ascii) (s : string) : bool :=
  match s with
  | EmptyString => true
  | String a s' => negb (Ascii.eqb a c) && free_of c s'
  end.

End Extensions.

Import Extensions.

(* ===================================================================== *)
(** ** Facts about rounding                                               *)
(* ===================================================================== *)

Module RoundingFacts.

Lemma div_between (x d k : Z) :
  0 < d -> k * d <= x < (k + 1) * d -> x / d = k.
Proof.
  intros Hd Hx. symmetry.
  apply (Z.div_unique_pos x d k (x - k * d)); lia.
Qed.

(** [rne] is within one half of the exact quotient. *)
Lemma rne_near (N D : Z) :
  0 <= N -> 0 < D ->
  2 * N - D <= 2 * (rne N D * D) <= 2 * N + D.
Proof.
  intros HN HD. unfold rne.
  pose proof (Z.div_mod N D ltac:(lia)) as E.
  pose proof (Z.mod_pos_bound N D HD) as B.
  set (q := N / D) in *. set (r := N mod D) in *.
  destruct (2 * r <? D) eqn:H1; [apply Z.ltb_lt in H1; nia|].
  apply Z.ltb_ge in H1.
  destruct (D <? 2 * r) eqn:H2; [apply Z.ltb_lt in H2; nia|].
  apply Z.ltb_ge in H2.
  destruct (Z.even q); nia.
Qed.

Lemma rne_nonneg (N D : Z) : 0 <= N -> 0 < D -> 0 <= rne N D.
Proof.
  intros HN HD. pose proof (rne_near N D HN HD). nia.
Qed.

Lemma rne_exact (k D : Z) : 0 < D -> rne (k * D) D = k.
Proof.
  intros HD. unfold rne.
  rewrite Z.div_mul, Z.mod_mul by lia.
  destruct (2 * 0 <? D) eqn:H; [reflexivity | apply Z.ltb_ge in H; lia].
Qed.

Lemma rne_scale (N D c : Z) :
  0 < D -> 0 < c -> rne (N * c) (D * c) = rne N D.
Proof.
  intros HD Hc. unfold rne.
  rewrite Z.div_mul_cancel_r by lia.
  rewrite Zmult_mod_distr_r.
  replace (2 * (N mod D * c)) with (2 * (N mod D) * c) by ring.
  assert (E1 : (2 * (N mod D) * c <? D * c) = (2 * (N mod D) <? D)).
  { destruct (2 * (N mod D) <? D) eqn:H.
    - apply Z.ltb_lt in H. apply Z.ltb_lt. nia.
    - apply Z.ltb_ge in H. apply Z.ltb_ge. nia. }
  assert (E2 : (D * c <? 2 * (N mod D) * c) = (D <? 2 * (N mod D))).
  { destruct (D <? 2 * (N mod D)) eqn:H.
    - apply Z.ltb_lt in H. apply Z.ltb_lt. nia.
    - apply Z.ltb_ge in H. apply Z.ltb_ge. nia. }
  rewrite E1, E2. reflexivity.
Qed.

Lemma pow2_pos (e : Z) : 0 <= e -> 0 < 2 ^ e.
Proof. intros. apply Z.pow_pos_nonneg; lia. Qed.

Lemma drop_bits_nonneg (t : Z) : 0 <= drop_bits t.
Proof. unfold drop_bits. lia. Qed.

Lemma round_units_scale (N D c : Z) :
  0 < D -> 0 < c -> round_units (N * c) (D * c) = round_units N D.
Proof.
  intros HD Hc. unfold round_units.
  rewrite Z.div_mul_cancel_r by lia.
  set (s := drop_bits (N / D)).
  pose proof (pow2_pos s (drop_bits_nonneg _)).
  replace (D * c * 2 ^ s) with (D * 2 ^ s * c) by ring.
  rewrite rne_scale by nia. reflexivity.
Qed.

Lemma round_units_cancel (N c : Z) :
  0 < c -> round_units (N * c) c = round_units N 1.
Proof.
  intros Hc. rewrite <- (round_units_scale N 1 c) by lia.
  rewrite Z.mul_1_l. reflexivity.
Qed.

Lemma round_units_nonneg (N D : Z) :
  0 <= N -> 0 < D -> 0 <= round_units N D.
Proof.
  intros HN HD. unfold round_units.
  set (s := drop_bits (N / D)).
  pose proof (pow2_pos s (drop_bits_nonneg _)).
  pose proof (rne_nonneg N (D * 2 ^ s) HN ltac:(nia)). nia.
Qed.

Lemma pow2_divide (a b : Z) : 0 <= a <= b -> (2 ^ a | 2 ^ b).
Proof.
  intros H. exists (2 ^ (b - a)).
  rewrite <- Z.pow_add_r by lia. f_equal. lia.
Qed.

Lemma rne_multiple (n d : Z) :
  0 <= d -> (2 ^ d | n) -> rne n (2 ^ d) * 2 ^ d = n.
Proof.
  intros Hd [c Hc]. rewrite Hc at 1.
  rewrite rne_exact by (apply pow2_pos; lia). lia.
Qed.

(** A magnitude on a grid [2^e] is rounded to a magnitude on that grid. *)
Lemma round_units_grid (X e : Z) :
  0 <= X -> 0 <= e -> (2 ^ e | X) -> (2 ^ e | round_units X 1).
Proof.
  intros HX He Hdiv. unfold round_units.
  rewrite Z.div_1_r, Z.mul_1_l.
  set (s := drop_bits X).
  pose proof (drop_bits_nonneg X) as Hs. fold s in Hs.
  destruct (Z_le_gt_dec e s) as [Hes | Hes].
  - apply Z.divide_mul_r. apply pow2_divide. lia.
  - assert (Hd : (2 ^ s | X)).
    { apply Z.divide_trans with (2 ^ e); [apply pow2_divide; lia | exact Hdiv]. }
    rewrite rne_multiple by assumption. exact Hdiv.
Qed.

Lemma representable_fixed (n : Z) :
  representable n -> round_units n 1 = n.
Proof.
  intros (m & s & Hs & Hm & ->). unfold round_units.
  rewrite Z.div_1_r, Z.mul_1_l.
  apply rne_multiple; [apply drop_bits_nonneg|].
  pose proof (pow2_pos s Hs) as Hps.
  destruct (Z.eq_dec m 0) as [-> | Hm0].
  { rewrite Z.mul_0_l. apply Z.divide_0_r. }
  assert (Hlog : Z.log2 (m * 2 ^ s) = Z.log2 m + s).
  { rewrite <- Z.shiftl_mul_pow2 by lia. apply Z.log2_shiftl; lia. }
  unfold drop_bits. rewrite Hlog. unfold mant_bits in *.
  destruct (Z.eq_dec m (2 ^ 53)) as [-> | Hne].
  - rewrite Z.log2_pow2 by lia. rewrite <- Z.pow_add_r by lia.
    apply pow2_divide. lia.
  - assert (Z.log2 m < 53) by (apply Z.log2_lt_pow2; lia).
    apply Z.divide_mul_r. apply pow2_divide. lia.
Qed.

Lemma round_units_representable (N D : Z) :
  0 <= N -> 0 < D -> representable (round_units N D).
Proof.
  intros HN HD. unfold round_units.
  set (t := N / D). set (s := drop_bits t).
  pose proof (drop_bits_nonneg t) as Hs. fold s in Hs.
  pose proof (pow2_pos s Hs) as Hps.
  exists (rne N (D * 2 ^ s)), s. split; [exact Hs|]. split; [|reflexivity].
  split; [apply rne_nonneg; nia|].
  assert (Ht : 0 <= t) by (apply Z.div_pos; lia).
  assert (Hlt : t < 2 ^ (s + mant_bits)).
  { destruct (Z.eq_dec t 0) as [-> | Hne].
    - apply pow2_pos. unfold mant_bits. lia.
    - apply Z.log2_lt_pow2; [lia|].
      unfold s, drop_bits, mant_bits. lia. }
  assert (HN' : N < 2 ^ (s + mant_bits) * D).
  { pose proof (Z.div_mod N D ltac:(lia)).
    pose proof (Z.mod_pos_bound N D HD). fold t in H. nia. }
  rewrite Z.pow_add_r in HN' by (unfold mant_bits; lia).
  pose proof (rne_near N (D * 2 ^ s) HN ltac:(nia)) as Hn.
  assert (0 < 2 ^ mant_bits) by (apply pow2_pos; unfold mant_bits; lia).
  nia.
Qed.

(** *** [int / int] followed by [math.floor] *)

Lemma pos_factor (b x : Z) : 0 < b -> 0 < b * x -> 0 < x.
Proof. intros. nia. Qed.

Lemma nonneg_factor (b x : Z) : 0 < b -> 0 <= b * x -> 0 <= x.
Proof. intros. nia. Qed.

(** Where the rounded quotient of [A / b] lies, for a 53-bit [A]. *)
Lemma true_divide_units (A b : Z) :
  0 <= A < 2 ^ 53 -> 0 < b < 2 ^ 1075 ->
  let n := round_units (A * one_units) b in
  A / b * one_units <= n < (A / b + 1) * one_units /\
  (A mod b = 0 -> n = A / b * one_units) /\
  (A mod b <> 0 -> A / b * one_units < n).
Proof.
  intros HA Hb n.
  assert (Hu : one_units = 2 ^ 1074) by reflexivity.
  assert (Hupos : 0 < one_units) by (rewrite Hu; apply pow2_pos; lia).
  set (t := A * one_units / b).
  set (s := drop_bits t).
  assert (Ht : 0 <= t) by (apply Z.div_pos; nia).
  assert (Htb : t * b <= A * one_units).
  { unfold t. rewrite Z.mul_comm. apply Z.mul_div_le. lia. }
  assert (Hs : 0 <= s <= 1074).
  { split; [apply drop_bits_nonneg|].
    unfold s, drop_bits, mant_bits.
    destruct (Z.eq_dec t 0) as [-> | Hne]; [simpl; lia|].
    assert (Z.log2 t < 53 + 1074); [|lia].
    apply Z.log2_lt_pow2; [lia|].
    rewrite Z.pow_add_r, <- Hu by lia. nia. }
  set (u' := 2 ^ (1074 - s)).
  set (P := 2 ^ s).
  assert (HP : 0 < P) by (apply pow2_pos; lia).
  assert (Hu' : 0 < u') by (apply pow2_pos; lia).
  assert (Hsplit : one_units = u' * P).
  { rewrite Hu. unfold u', P. rewrite <- Z.pow_add_r by lia. f_equal. lia. }
  assert (Hn : n = rne (A * u') b * P).
  { unfold n, round_units. fold t. fold s. fold P.
    rewrite Hsplit. replace (A * (u' * P)) with (A * u' * P) by ring.
    rewrite rne_scale by lia. reflexivity. }
  assert (Hbu : b < 2 * u').
  { destruct (Z.eq_dec s 0) as [Hs0 | Hs0].
    - unfold u'. rewrite Hs0, Z.sub_0_r.
      replace (2 * 2 ^ 1074) with (2 ^ 1075); [lia|].
      change 1075 with (1 + 1074). rewrite Z.pow_add_r by lia. reflexivity.
    - assert (Hlog : s = Z.log2 t - 52).
      { unfold s, drop_bits, mant_bits in *. lia. }
      assert (Htpos : 0 < t).
      { destruct (Z.eq_dec t 0) as [E | E]; [|lia].
        rewrite E in Hlog. simpl in Hlog. lia. }
      pose proof (Z.log2_spec t Htpos) as [Hlo _].
      replace (Z.log2 t) with (52 + s) in Hlo by lia.
      rewrite Z.pow_add_r in Hlo by lia. fold P in Hlo.
      rewrite Hsplit in Htb.
      assert (H1 : 2 ^ 52 * b * P <= A * u' * P) by nia.
      assert (H2 : 2 ^ 52 * b <= A * u') by nia.
      assert (H3 : A * u' < 2 ^ 53 * u') by nia.
      change (2 ^ 53) with (2 * 2 ^ 52) in H3.
      assert (0 < 2 ^ 52) by reflexivity.
      nia. }
  assert (HAu : 0 <= A * u') by nia.
  pose proof (rne_near (A * u') b HAu ltac:(lia)) as Hnear.
  pose proof (Z.div_mod A b ltac:(lia)) as Hdm.
  pose proof (Z.mod_pos_bound A b ltac:(lia)) as Hr.
  set (m := rne (A * u') b) in *.
  set (q := A / b) in *. set (r := A mod b) in *.
  rewrite Hn, Hsplit.
  assert (HAexp : A * u' = q * u' * b + r * u') by (rewrite Hdm; ring).
  assert (Hru : 0 <= r * u' <= b * u' - u') by nia.
  assert (Hr1 : r <> 0 -> u' <= r * u') by nia.
  assert (F1 : q * u' <= m).
  { assert (H : 0 <= b * (2 * (m - q * u') + 1)) by lia.
    apply nonneg_factor in H; lia. }
  assert (F2 : m < (q + 1) * u').
  { assert (H : 0 < b * (2 * ((q + 1) * u' - m))) by lia.
    apply pos_factor in H; lia. }
  assert (F3 : r = 0 -> m = q * u').
  { intros Hr0. rewrite Hr0 in *.
    assert (H : 0 <= b * (2 * (q * u' - m) + 1)) by lia.
    apply nonneg_factor in H; lia. }
  assert (F4 : r <> 0 -> q * u' < m).
  { intros Hr0. specialize (Hr1 Hr0).
    assert (H : 0 < b * (2 * (m - q * u'))) by lia.
    apply pos_factor in H; lia. }
  clearbody m q r. clear Hnear Hdm HAexp Hru Hr1 Hn Htb.
  split; [nia|]. split.
  - intros Hx. rewrite (F3 Hx). ring.
  - intros Hx. specialize (F4 Hx). nia.
Qed.

(** For a 53-bit numerator, flooring the rounded quotient gives the
    floor of the exact quotient. *)
Lemma floor_true_divide (a b : Z) :
  Z.abs a < 2 ^ 53 -> 0 < b < 2 ^ 1075 ->
  (x <- int_true_divide a b ;; math_floor x) = Ok (a / b).
Proof.
  intros Ha Hb. unfold int_true_divide.
  destruct (b =? 0) eqn:E; [apply Z.eqb_eq in E; lia|]. clear E.
  rewrite (Z.abs_eq b) by lia.
  pose proof (true_divide_units (Z.abs a) b ltac:(lia) Hb) as (Hrange & Hz & Hnz).
  set (n := round_units (Z.abs a * one_units) b) in *.
  assert (Hu : one_units = 2 ^ 1074) by reflexivity.
  assert (Hupos : 0 < one_units) by (rewrite Hu; apply pow2_pos; lia).
  assert (Hq : 0 <= Z.abs a / b < 2 ^ 53).
  { split; [apply Z.div_pos; lia|].
    apply Z.div_lt_upper_bound; [lia|]. nia. }
  assert (Hov : (overflow_units <=? n) = false).
  { apply Z.leb_gt. unfold overflow_units, unit_bits.
    change (1024 + 1074) with (1024 + 1074).
    rewrite Z.pow_add_r by lia. rewrite <- Hu.
    assert (2 ^ 53 < 2 ^ 1024) by (apply Z.pow_lt_mono_r; lia).
    nia. }
  rewrite Hov. simpl. f_equal.
  assert (Hbn : is_neg b = false) by (apply Z.ltb_ge; lia).
  rewrite Hbn, xorb_false_r.
  unfold is_neg, signed.
  destruct (a <? 0) eqn:Hs.
  - apply Z.ltb_lt in Hs.
    rewrite (Z.abs_neq a) in * by lia.
    pose proof (Z.div_mod (- a) b ltac:(lia)) as Hdm.
    pose proof (Z.mod_pos_bound (- a) b ltac:(lia)) as Hr.
    destruct (Z.eq_dec ((- a) mod b) 0) as [Hr0 | Hr0].
    + rewrite (Hz Hr0).
      rewrite <- Z.mul_opp_l, Z.div_mul by lia.
      symmetry. apply div_between; [lia|]. nia.
    + specialize (Hnz Hr0).
      transitivity (- (- a / b + 1)).
      * apply div_between; [lia|]. nia.
      * symmetry. apply div_between; [lia|]. nia.
  - apply Z.ltb_ge in Hs.
    rewrite (Z.abs_eq a) in * by lia.
    apply div_between; [lia|]. lia.
Qed.

Lemma Qfloor_quotient (a b : Z) :
  0 < b -> Qfloor (inject_Z a / inject_Z b)%Q = a / b.
Proof.
  intros Hb. destruct b as [|p|p]; try lia.
  unfold Qdiv, Qinv, inject_Z, Qmult, Qfloor. simpl.
  rewrite Z.mul_1_r. reflexivity.
Qed.

End RoundingFacts.

(* ===================================================================== *)
(** ** Floats on a grid                                                   *)
(* ===================================================================== *)

(** Every float the calculator handles for [start] is a multiple of one
    half: the halved kernel extent is, paddings and jumps are whole, and
    rounding to nearest keeps a value on the grid it came from. *)

Module GridFacts.
Import RoundingFacts.

Lemma on_grid_fin (e : Z) (s : bool) (n : Z) :
  0 <= n -> n < overflow_units -> representable n -> (2 ^ e | n) ->
  on_grid e (Fin s n).
Proof. simpl. tauto. Qed.

Lemma representable_zero : representable 0.
Proof. exists 0, 0. unfold mant_bits. lia. Qed.

Lemma one_units_pos : 0 < one_units.
Proof. apply pow2_pos. unfold unit_bits. lia. Qed.

Lemma one_units_half : one_units = 2 * 2 ^ half_bits.
Proof.
  unfold one_units, half_bits, unit_bits.
  change 1074 with (1 + (1074 - 1)) at 1.
  rewrite Z.pow_add_r by lia. reflexivity.
Qed.

Lemma half_divides_one : (2 ^ half_bits | one_units).
Proof. exists 2. rewrite one_units_half. ring. Qed.

Lemma on_grid_weaken (e e' : Z) (x : float) :
  0 <= e' <= e -> on_grid e x -> on_grid e' x.
Proof.
  intros He. destruct x as [s n | s |]; simpl; auto.
  intros (Hn & Hr & Hd). apply on_grid_fin; try tauto; try lia.
  apply Z.divide_trans with (2 ^ e); [apply pow2_divide; lia | exact Hd].
Qed.

Lemma round_float_on_grid (neg : bool) (X e : Z) :
  0 <= X -> 0 <= e -> (2 ^ e | X) -> on_grid e (round_float neg X 1).
Proof.
  intros HX He Hd. unfold round_float.
  destruct (overflow_units <=? round_units X 1) eqn:E; [exact I|].
  apply Z.leb_gt in E.
  pose proof (round_units_nonneg X 1 HX ltac:(lia)).
  apply on_grid_fin; try lia.
  - apply round_units_representable; lia.
  - apply round_units_grid; assumption.
Qed.

Lemma halves_one_on_grid : on_grid half_bits (halves 1).
Proof.
  unfold halves. change (Z.abs 1) with 1. rewrite Z.mul_1_l.
  fold half_bits.
  assert (0 < 2 ^ half_bits)
    by (apply pow2_pos; unfold half_bits, unit_bits; lia).
  apply on_grid_fin; try lia.
  - unfold overflow_units, half_bits.
    apply Z.pow_lt_mono_r; unfold unit_bits; lia.
  - exists 1, half_bits. unfold half_bits, unit_bits, mant_bits.
    split; [lia|]. split; [|ring].
    split; [lia|]. apply (Z.pow_le_mono_r 2 0 53); lia.
  - apply Z.divide_refl.
Qed.

Lemma fneg_on_grid (e : Z) (x : float) : on_grid e x -> on_grid e (fneg x).
Proof. destruct x; simpl; auto. Qed.

Lemma fadd_on_grid (e : Z) (x y : float) :
  0 <= e -> on_grid e x -> on_grid e y -> on_grid e (fadd x y).
Proof.
  intros He Hx Hy.
  destruct x as [sx nx | sx |], y as [sy ny | sy |]; simpl; auto.
  - destruct Hx as (Hnx & Hrx & Hdx), Hy as (Hny & Hry & Hdy).
    destruct ((nx =? 0) && (ny =? 0)) eqn:Ez.
    { apply on_grid_fin; try lia;
        [apply representable_zero | apply Z.divide_0_r]. }
    destruct (signed sx nx + signed sy ny =? 0) eqn:Ev.
    { apply on_grid_fin; try lia;
        [apply representable_zero | apply Z.divide_0_r]. }
    apply round_float_on_grid; [lia | exact He |].
    apply Z.divide_abs_r. apply Z.divide_add_r.
    + unfold signed. destruct sx; [apply Z.divide_opp_r|]; exact Hdx.
    + unfold signed. destruct sy; [apply Z.divide_opp_r|]; exact Hdy.
  - destruct (Bool.eqb sx sy); exact I.
Qed.

Lemma fsub_on_grid (e : Z) (x y : float) :
  0 <= e -> on_grid e x -> on_grid e y -> on_grid e (fsub x y).
Proof.
  intros. unfold fsub. apply fadd_on_grid; auto using fneg_on_grid.
Qed.

(** A half-integral float times a whole float is half-integral. *)
Lemma fmul_on_grid (x y : float) :
  on_grid half_bits x -> on_grid unit_bits y ->
  on_grid half_bits (fmul x y).
Proof.
  intros Hx Hy.
  destruct x as [sx nx | sx |], y as [sy ny | sy |]; simpl; auto.
  - destruct Hx as (Hnx & Hrx & Hdx), Hy as (Hny & Hry & [c Hc]).
    fold one_units in Hc.
    pose proof one_units_pos as Hu.
    assert (Hc0 : 0 <= c) by nia.
    subst ny.
    unfold round_float.
    replace (nx * (c * one_units)) with (nx * c * one_units) by ring.
    rewrite round_units_cancel by lia.
    apply (round_float_on_grid (xorb sx sy) (nx * c) half_bits).
    + nia.
    + unfold half_bits, unit_bits. lia.
    + apply Z.divide_mul_l. exact Hdx.
  - destruct (nx =? 0); exact I.
  - destruct (ny =? 0); exact I.
Qed.

Lemma float_of_int_on_grid (a : Z) (y : float) :
  float_of_int a = Ok y -> on_grid unit_bits y.
Proof.
  unfold float_of_int.
  destruct (overflow_units <=? _) eqn:E; [discriminate|].
  intros [= <-]. apply Z.leb_gt in E.
  pose proof one_units_pos as Hu.
  assert (HA : 0 <= Z.abs a * one_units) by nia.
  pose proof (round_units_nonneg _ 1 HA ltac:(lia)).
  apply on_grid_fin; try lia.
  - apply round_units_representable; lia.
  - apply round_units_grid; [exact HA | unfold unit_bits; lia |].
    apply Z.divide_mul_r. apply Z.divide_refl.
Qed.

Lemma halved_on_grid (a : Z) (x : float) :
  int_true_divide a 2 = Ok x -> on_grid half_bits x.
Proof.
  unfold int_true_divide.
  destruct (2 =? 0) eqn:E2; [discriminate|].
  assert (Hn : round_units (Z.abs a * one_units) (Z.abs 2)
               = round_units (Z.abs a * 2 ^ half_bits) 1).
  { change (Z.abs 2) with 2. rewrite one_units_half.
    replace (Z.abs a * (2 * 2 ^ half_bits))
      with (Z.abs a * 2 ^ half_bits * 2) by ring.
    apply round_units_cancel. lia. }
  rewrite Hn. clear Hn.
  assert (0 < 2 ^ half_bits)
    by (apply pow2_pos; unfold half_bits, unit_bits; lia).
  assert (HA : 0 <= Z.abs a * 2 ^ half_bits) by nia.
  pose proof (round_units_nonneg _ 1 HA ltac:(lia)) as Hnn.
  pose proof (round_units_representable _ 1 HA ltac:(lia)) as Hrep.
  assert (Hdiv : (2 ^ half_bits | round_units (Z.abs a * 2 ^ half_bits) 1)).
  { apply round_units_grid; [exact HA | unfold half_bits, unit_bits; lia |].
    apply Z.divide_mul_r. apply Z.divide_refl. }
  set (n := round_units (Z.abs a * 2 ^ half_bits) 1) in *.
  destruct (overflow_units <=? n) eqn:E; [discriminate|].
  apply Z.leb_gt in E.
  intros Hx. injection Hx as <-.
  apply on_grid_fin; assumption.
Qed.

(** [round(x, 3)] returns a half-integral float as it is. *)
Lemma round3_on_grid (x : float) :
  on_grid half_bits x -> round3 x = Ok x.
Proof.
  destruct x as [s n | s |]; [|reflexivity|reflexivity].
  unfold on_grid, round3.
  intros (Hn & Hr & [c Hc]).
  assert (E1 : n * 1000 = c * 500 * one_units).
  { rewrite one_units_half, Hc. ring. }
  rewrite E1, rne_exact by apply one_units_pos.
  rewrite <- E1.
  rewrite round_units_cancel by lia.
  rewrite representable_fixed by exact Hr.
  destruct (overflow_units <=? n) eqn:E; [apply Z.leb_le in E; lia|].
  reflexivity.
Qed.

(** The update of [start] stays on the half grid. *)
Lemma start_update_on_grid (start : float) (k_eff p j : Z) (x : float) :
  on_grid half_bits start ->
  start_update start k_eff p j = Ok x ->
  on_grid half_bits x.
Proof.
  intros Hs. unfold start_update, fsub_int, fmul_int.
  destruct (int_true_divide (k_eff - 1) 2) as [q|] eqn:Eq; [|discriminate].
  simpl.
  destruct (float_of_int p) as [fp|] eqn:Ep; [|discriminate]. simpl.
  destruct (float_of_int j) as [fj|] eqn:Ej; [|discriminate]. simpl.
  intros [= <-].
  assert (Hhb : 0 <= half_bits <= unit_bits)
    by (unfold half_bits, unit_bits; lia).
  apply fadd_on_grid; [lia | exact Hs |].
  apply fmul_on_grid; [|eapply float_of_int_on_grid; eassumption].
  apply fsub_on_grid; [lia | eapply halved_on_grid; eassumption |].
  apply on_grid_weaken with unit_bits; [lia|].
  eapply float_of_int_on_grid; eassumption.
Qed.

End GridFacts.

(* ===================================================================== *)
(** ** The update of [start] is exact on 53-bit values                    *)
(* ===================================================================== *)

(** Within 53 bits none of the float operations of the update rounds, so
    the float computed is the rational
    start + ((k_eff - 1)/2 - padding) * j itself: in halves,
    a + (k_eff - 1 - 2 * padding) * j. *)

Module ExactFacts.
Import RoundingFacts GridFacts.

Lemma half_bits_pos : 0 < 2 ^ half_bits.
Proof. apply pow2_pos. unfold half_bits, unit_bits. lia. Qed.

Lemma round_units_small (m s : Z) :
  0 <= m <= 2 ^ 53 -> 0 <= s -> round_units (m * 2 ^ s) 1 = m * 2 ^ s.
Proof.
  intros Hm Hs. apply representable_fixed. exists m, s.
  unfold mant_bits. repeat split; lia.
Qed.

Lemma small_half_below_overflow (m : Z) :
  0 <= m <= 2 ^ 53 -> m * 2 ^ half_bits < overflow_units.
Proof.
  intros Hm. pose proof half_bits_pos as HP.
  assert (E : overflow_units = 2 ^ 1025 * 2 ^ half_bits).
  { unfold overflow_units, half_bits, unit_bits.
    rewrite <- Z.pow_add_r by lia. reflexivity. }
  rewrite E.
  assert (2 ^ 53 < 2 ^ 1025) by (apply Z.pow_lt_mono_r; lia).
  nia.
Qed.

Lemma round_float_half (neg : bool) (m : Z) :
  0 <= m <= 2 ^ 53 ->
  round_float neg (m * 2 ^ half_bits) 1 = Fin neg (m * 2 ^ half_bits).
Proof.
  intros Hm. unfold round_float.
  rewrite round_units_small
    by (try assumption; unfold half_bits, unit_bits; lia).
  pose proof (small_half_below_overflow m Hm) as Hov.
  destruct (overflow_units <=? m * 2 ^ half_bits) eqn:E;
    [apply Z.leb_le in E; lia | reflexivity].
Qed.

Lemma half_value_halves (a : Z) : half_value (halves a) a.
Proof.
  unfold halves, half_value. fold half_bits.
  pose proof half_bits_pos as HP. split; [nia|].
  unfold signed, is_neg. destruct (a <? 0) eqn:E.
  - apply Z.ltb_lt in E. rewrite Z.abs_neq by lia. ring.
  - apply Z.ltb_ge in E. rewrite Z.abs_eq by lia. ring.
Qed.

Lemma half_value_magnitude (s : bool) (n a : Z) :
  half_value (Fin s n) a ->
  n = Z.abs a * 2 ^ half_bits /\
  (s = true -> a <= 0) /\ (s = false -> 0 <= a).
Proof.
  unfold half_value, signed. pose proof half_bits_pos as HP.
  intros [Hn Hv]. destruct s.
  - assert (a <= 0) by nia. rewrite Z.abs_neq by lia.
    repeat split; try lia; try discriminate.
  - assert (0 <= a) by nia. rewrite Z.abs_eq by lia.
    repeat split; try lia; try discriminate.
Qed.

(** [(k_eff - 1) / 2] *)
Lemma halved_exact (c : Z) :
  Z.abs c <= 2 ^ 53 -> int_true_divide c 2 = Ok (halves c).
Proof.
  intros Hc. unfold int_true_divide.
  destruct (2 =? 0) eqn:E2; [discriminate|].
  assert (Hn : round_units (Z.abs c * one_units) (Z.abs 2)
               = Z.abs c * 2 ^ half_bits).
  { change (Z.abs 2) with 2. rewrite one_units_half.
    replace (Z.abs c * (2 * 2 ^ half_bits))
      with (Z.abs c * 2 ^ half_bits * 2) by ring.
    rewrite round_units_cancel by lia.
    apply round_units_small; [lia | unfold half_bits, unit_bits; lia]. }
  rewrite Hn.
  pose proof (small_half_below_overflow (Z.abs c) ltac:(lia)) as Hov.
  destruct (overflow_units <=? Z.abs c * 2 ^ half_bits) eqn:E;
    [apply Z.leb_le in E; lia|].
  change (is_neg 2) with false. rewrite xorb_false_r. reflexivity.
Qed.

(** the conversion of an [int] operand *)
Lemma float_of_int_exact (b : Z) :
  Z.abs b <= 2 ^ 53 ->
  exists y, float_of_int b = Ok y /\ half_value y (2 * b).
Proof.
  intros Hb. unfold float_of_int.
  assert (Hn : round_units (Z.abs b * one_units) 1 = Z.abs b * one_units).
  { unfold one_units. apply round_units_small; [lia | unfold unit_bits; lia]. }
  rewrite Hn.
  assert (Hov : Z.abs b * one_units < overflow_units).
  { assert (E : overflow_units = 2 ^ 1024 * one_units).
    { unfold overflow_units, one_units, unit_bits.
      rewrite <- Z.pow_add_r by lia. reflexivity. }
    rewrite E. pose proof one_units_pos.
    assert (2 ^ 53 < 2 ^ 1024) by (apply Z.pow_lt_mono_r; lia). nia. }
  destruct (overflow_units <=? Z.abs b * one_units) eqn:E;
    [apply Z.leb_le in E; lia|].
  eexists. split; [reflexivity|].
  unfold half_value. pose proof one_units_pos. split; [nia|].
  rewrite one_units_half. unfold signed, is_neg.
  destruct (b <? 0) eqn:Es.
  - apply Z.ltb_lt in Es. rewrite Z.abs_neq by lia. ring.
  - apply Z.ltb_ge in Es. rewrite Z.abs_eq by lia. ring.
Qed.

Lemma fneg_half_value (x : float) (a : Z) :
  half_value x a -> half_value (fneg x) (- a).
Proof.
  destruct x as [s n | s |]; try contradiction.
  unfold fneg, half_value, signed. intros [Hn Hv].
  split; [exact Hn|]. destruct s; cbn [negb]; lia.
Qed.

Lemma fadd_half_value (x y : float) (a b : Z) :
  half_value x a -> half_value y b -> Z.abs (a + b) <= 2 ^ 53 ->
  half_value (fadd x y) (a + b).
Proof.
  destruct x as [sx nx | sx |], y as [sy ny | sy |]; try contradiction.
  intros Hx Hy Hab. pose proof half_bits_pos as HP.
  destruct Hx as [Hnx Hvx], Hy as [Hny Hvy]. unfold fadd.
  destruct ((nx =? 0) && (ny =? 0)) eqn:Ez.
  { apply andb_prop in Ez as [E1 E2].
    apply Z.eqb_eq in E1, E2. subst nx ny.
    unfold half_value, signed in *. split; [lia|].
    destruct sx, sy; cbn [andb]; nia. }
  assert (Hsum : signed sx nx + signed sy ny = (a + b) * 2 ^ half_bits)
    by (rewrite Hvx, Hvy; ring).
  rewrite Hsum.
  destruct ((a + b) * 2 ^ half_bits =? 0) eqn:Ev.
  { apply Z.eqb_eq in Ev. unfold half_value, signed. split; lia. }
  apply Z.eqb_neq in Ev.
  rewrite Z.abs_mul, (Z.abs_eq (2 ^ half_bits)) by lia.
  rewrite round_float_half by lia.
  unfold half_value, signed, is_neg. split; [nia|].
  destruct ((a + b) * 2 ^ half_bits <? 0) eqn:Es.
  - apply Z.ltb_lt in Es. assert (a + b < 0) by nia.
    rewrite Z.abs_neq by lia. ring.
  - apply Z.ltb_ge in Es. assert (0 <= a + b) by nia.
    rewrite Z.abs_eq by lia. ring.
Qed.

(** a half-integral float times a whole one *)
Lemma fmul_half_value (x y : float) (a j : Z) :
  half_value x a -> half_value y (2 * j) -> Z.abs (a * j) <= 2 ^ 53 ->
  half_value (fmul x y) (a * j).
Proof.
  destruct x as [sx nx | sx |], y as [sy ny | sy |]; try contradiction.
  intros Hx Hy Haj. pose proof half_bits_pos as HP.
  apply half_value_magnitude in Hx as (Hnx & Hsx1 & Hsx2).
  apply half_value_magnitude in Hy as (Hny & Hsy1 & Hsy2).
  unfold fmul.
  assert (Hprod : nx * ny = Z.abs (a * j) * 2 ^ half_bits * one_units).
  { assert (E1 : Z.abs (2 * j) = 2 * Z.abs j) by lia.
    rewrite Hnx, Hny, E1, (Z.abs_mul a j), one_units_half. ring. }
  unfold round_float. rewrite Hprod.
  rewrite round_units_cancel by apply one_units_pos.
  rewrite round_units_small
    by (try lia; unfold half_bits, unit_bits; lia).
  pose proof (small_half_below_overflow (Z.abs (a * j)) ltac:(lia)) as Hov.
  destruct (overflow_units <=? Z.abs (a * j) * 2 ^ half_bits) eqn:E;
    [apply Z.leb_le in E; lia|].
  unfold half_value, signed. split; [nia|].
  destruct sx, sy; cbn [xorb].
  - specialize (Hsx1 eq_refl). specialize (Hsy1 eq_refl).
    assert (0 <= a * j) by nia. rewrite Z.abs_eq by lia. ring.
  - specialize (Hsx1 eq_refl). specialize (Hsy2 eq_refl).
    assert (a * j <= 0) by nia. rewrite Z.abs_neq by lia. ring.
  - specialize (Hsx2 eq_refl). specialize (Hsy1 eq_refl).
    assert (a * j <= 0) by nia. rewrite Z.abs_neq by lia. ring.
  - specialize (Hsx2 eq_refl). specialize (Hsy2 eq_refl).
    assert (0 <= a * j) by nia. rewrite Z.abs_eq by lia. ring.
Qed.

(** adding to a float written [halves a] gives a float written
    [halves _], zero included *)
Lemma fadd_halves (a b : Z) (y : float) :
  half_value y b -> Z.abs (a + b) <= 2 ^ 53 ->
  fadd (halves a) y = halves (a + b).
Proof.
  destruct y as [sy ny | sy |]; try contradiction.
  intros Hy Hab. pose proof half_bits_pos as HP.
  pose proof (half_value_halves a) as Ha.
  unfold halves in *. fold half_bits in *.
  destruct Ha as [Hna Hva], Hy as [Hny Hvy]. unfold fadd.
  destruct ((Z.abs a * 2 ^ half_bits =? 0) && (ny =? 0)) eqn:Ez.
  { apply andb_prop in Ez as [E1 E2].
    apply Z.eqb_eq in E1, E2. subst ny.
    assert (a = 0) by nia. subst a.
    assert (b = 0) by (unfold signed in Hvy; destruct sy; nia). subst b.
    reflexivity. }
  assert (Hsum : signed (is_neg a) (Z.abs a * 2 ^ half_bits) + signed sy ny
                 = (a + b) * 2 ^ half_bits)
    by (rewrite Hva, Hvy; ring).
  rewrite Hsum.
  destruct ((a + b) * 2 ^ half_bits =? 0) eqn:Ev.
  { apply Z.eqb_eq in Ev. assert (E0 : a + b = 0) by nia.
    rewrite E0. reflexivity. }
  rewrite Z.abs_mul, (Z.abs_eq (2 ^ half_bits)) by lia.
  rewrite round_float_half by lia.
  f_equal. unfold is_neg.
  destruct (a + b <? 0) eqn:Es.
  - apply Z.ltb_lt in Es. apply Z.ltb_lt. nia.
  - apply Z.ltb_ge in Es. apply Z.ltb_ge. nia.
Qed.

(** The update on floats is the update on rationals: with [start = a / 2],
    the new start is [(a + (k_eff - 1 - 2 * padding) * j) / 2]. *)
Lemma start_next_exact (a k_eff padding j : Z) :
  Z.abs (k_eff - 1) <= 2 ^ 53 -> Z.abs padding <= 2 ^ 53 ->
  Z.abs j <= 2 ^ 53 ->
  Z.abs (k_eff - 1 - 2 * padding) <= 2 ^ 53 ->
  Z.abs ((k_eff - 1 - 2 * padding) * j) <= 2 ^ 53 ->
  Z.abs (a + (k_eff - 1 - 2 * padding) * j) <= 2 ^ 53 ->
  Spec.start_next (halves a) k_eff padding j =
  Ok (halves (a + (k_eff - 1 - 2 * padding) * j)).
Proof.
  intros Hk Hp Hj Hd Hm Hs.
  unfold Spec.start_next, fsub_int, fmul_int.
  rewrite (halved_exact (k_eff - 1) Hk). cbn [bind].
  destruct (float_of_int_exact padding Hp) as (fp & Efp & Hfp).
  rewrite Efp. cbn [bind].
  destruct (float_of_int_exact j Hj) as (fj & Efj & Hfj).
  rewrite Efj. cbn [bind]. f_equal.
  apply fadd_halves; [|exact Hs].
  apply fmul_half_value; [|exact Hfj|exact Hm].
  unfold fsub.
  replace (k_eff - 1 - 2 * padding) with ((k_eff - 1) + - (2 * padding))
    by ring.
  apply fadd_half_value.
  - apply half_value_halves.
  - apply fneg_half_value. exact Hfp.
  - replace (k_eff - 1 + - (2 * padding)) with (k_eff - 1 - 2 * padding)
      by ring. exact Hd.
Qed.

End ExactFacts.

(* ===================================================================== *)
(** ** The loop of [compute_current_state]                                *)
(* ===================================================================== *)

Module LoopFacts.
Import GridFacts.

Lemma if_same {A : Type} (b : bool) (x : A) : (if b then x else x) = x.
Proof. destruct b; reflexivity. Qed.

(** One iteration of the loop is one step of the scan; the rounding of
    the recorded [start] changes nothing on the half grid. *)
Lemma loop_body_step (rows : list row) (sc : Spec.scalars) (l : Layer) :
  on_grid half_bits (Spec.s_start sc) ->
  loop_body (locals_of rows sc) l =
  (sr <- Spec.step sc l ;; Ok (locals_of (rows ++ [snd sr]) (fst sr))).
Proof.
  intros Hg. unfold loop_body, Spec.step, locals_of.
  cbn [l_rf l_j l_start l_results l_current_height l_current_width
       l_current_channels].
  change (Spec.start_next (Spec.s_start sc) (Spec.effective_kernel_size l)
            (padding l) (Spec.s_jump sc))
    with (start_update (Spec.s_start sc) (get_effective_kernel_size l)
            (padding l) (Spec.s_jump sc)).
  change (Spec.effective_kernel_size l) with (get_effective_kernel_size l).
  destruct (start_update _ _ _ _) as [st|e] eqn:Est; [|reflexivity].
  cbn [bind].
  destruct (compute_output_size l (Spec.s_height sc)) as [oh|e];
    [|reflexivity].
  cbn [bind].
  destruct (compute_output_size l (Spec.s_width sc)) as [ow|e];
    [|reflexivity].
  cbn [bind].
  rewrite (round3_on_grid st)
    by (eapply start_update_on_grid; eassumption).
  cbn [bind fst snd Spec.s_rf Spec.s_jump Spec.s_start Spec.s_height
       Spec.s_width Spec.s_channels].
  rewrite if_same. reflexivity.
Qed.

Lemma step_on_grid (sc : Spec.scalars) (l : Layer)
      (sr : Spec.scalars * row) :
  on_grid half_bits (Spec.s_start sc) ->
  Spec.step sc l = Ok sr ->
  on_grid half_bits (Spec.s_start (fst sr)).
Proof.
  intros Hg. unfold Spec.step.
  change (Spec.start_next (Spec.s_start sc) (Spec.effective_kernel_size l)
            (padding l) (Spec.s_jump sc))
    with (start_update (Spec.s_start sc) (Spec.effective_kernel_size l)
            (padding l) (Spec.s_jump sc)).
  destruct (start_update _ _ _ _) as [st|e] eqn:Est; [|discriminate].
  cbn [bind].
  destruct (compute_output_size l (Spec.s_height sc)) as [oh|e];
    [|discriminate].
  cbn [bind].
  destruct (compute_output_size l (Spec.s_width sc)) as [ow|e];
    [|discriminate].
  cbn [bind]. intros [= <-]. cbn [fst Spec.s_start].
  eapply start_update_on_grid; eassumption.
Qed.

Lemma scan_on_grid (ls : list Layer) :
  forall (sc : Spec.scalars) (out : list row * Spec.scalars),
    on_grid half_bits (Spec.s_start sc) ->
    Spec.scan sc ls = Ok out ->
    on_grid half_bits (Spec.s_start (snd out)).
Proof.
  induction ls as [|l ls IH]; intros sc out Hg; cbn [Spec.scan].
  - intros [= <-]. exact Hg.
  - destruct (Spec.step sc l) as [sr|e] eqn:Es; [|discriminate].
    cbn [bind].
    destruct (Spec.scan (fst sr) ls) as [rest|e] eqn:Er; [|discriminate].
    cbn [bind]. intros [= <-]. cbn [snd].
    eapply IH; [|exact Er]. eapply step_on_grid; eassumption.
Qed.

(** The whole loop: the rows of the scan are appended, in order, to the
    rows already there. *)
Lemma for_each_scan (ls : list Layer) :
  forall (rows : list row) (sc : Spec.scalars),
    on_grid half_bits (Spec.s_start sc) ->
    for_each loop_body ls (locals_of rows sc) =
    (out <- Spec.scan sc ls ;;
     Ok (locals_of (rows ++ fst out) (snd out))).
Proof.
  induction ls as [|l ls IH]; intros rows sc Hg;
    cbn [for_each Spec.scan].
  - cbn [bind fst snd]. rewrite app_nil_r. reflexivity.
  - rewrite loop_body_step by exact Hg.
    destruct (Spec.step sc l) as [sr|e] eqn:Es; [|reflexivity].
    cbn [bind].
    rewrite IH by (eapply step_on_grid; eassumption).
    destruct (Spec.scan (fst sr) ls) as [rest|e]; [|reflexivity].
    cbn [bind fst snd]. rewrite <- app_assoc. reflexivity.
Qed.

Lemma loop_body_channels (v v' : locals) (l : Layer) :
  loop_body v l = Ok v' ->
  l_current_channels v' = l_current_channels v /\
  exists r, l_results v' = l_results v ++ [r] /\
            passes_channels (l_current_channels v) r.
Proof.
  unfold loop_body.
  destruct (start_update _ _ _ _) as [st|e]; [|discriminate]. cbn [bind].
  destruct (compute_output_size l (l_current_height v)) as [oh|e];
    [|discriminate]. cbn [bind].
  destruct (compute_output_size l (l_current_width v)) as [ow|e];
    [|discriminate]. cbn [bind].
  destruct (round3 st) as [rd|e]; [|discriminate]. cbn [bind].
  intros [= <-]. cbn [l_current_channels l_results].
  rewrite if_same. split; [reflexivity|].
  eexists. split; [reflexivity|].
  split; reflexivity.
Qed.

Lemma for_each_channels (ls : list Layer) :
  forall (v v' : locals),
    for_each loop_body ls v = Ok v' ->
    Forall (passes_channels (l_current_channels v)) (l_results v) ->
    l_current_channels v' = l_current_channels v /\
    Forall (passes_channels (l_current_channels v)) (l_results v').
Proof.
  induction ls as [|l ls IH]; intros v v'; cbn [for_each].
  - intros [= <-] H. split; [reflexivity | exact H].
  - destruct (loop_body v l) as [v1|e] eqn:E1; [|discriminate].
    cbn [bind]. intros Hrest Hall.
    apply loop_body_channels in E1 as (Hc & r & Hr & Hp).
    specialize (IH v1 v' Hrest). rewrite Hc in IH.
    apply IH. rewrite Hr. apply Forall_app. split; [exact Hall|].
    constructor; [exact Hp | constructor].
Qed.

(** What each handler does to the attributes of the calculator. *)
Lemma compute_keeps_self (self : ReceptiveFieldCalculator) :
  fst (compute_current_state self) = self.
Proof. reflexivity. Qed.

Lemma add_layer_layers (l : Layer) (self : ReceptiveFieldCalculator) :
  layers (fst (add_layer l self)) = layers self ++ [l] /\
  dims_of (fst (add_layer l self)) = dims_of self.
Proof. split; reflexivity. Qed.

Lemma api_set_input_dimensions_layers (h w c : Z)
      (self : ReceptiveFieldCalculator) :
  layers (fst (api_set_input_dimensions h w c self)) = layers self.
Proof.
  unfold api_set_input_dimensions.
  destruct ((h <=? 0) || (w <=? 0) || (c <=? 0)); reflexivity.
Qed.

Lemma api_add_layer_layers (ty : string) (k s p d : Z) (l : Layer)
      (self : ReceptiveFieldCalculator) :
  build_layer ty k s p d = Some l ->
  layers (fst (api_add_layer ty k s p d self)) = layers self ++ [l] /\
  dims_of (fst (api_add_layer ty k s p d self)) = dims_of self.
Proof.
  intros Hb. unfold api_add_layer. rewrite Hb. split; reflexivity.
Qed.

End LoopFacts.

(* ===================================================================== *)
(** ** The runtime model against the IEEE 754 reference                   *)
(* ===================================================================== *)

Module RuntimeChecks.

Example true_division_matches_SFdiv :
  forallb div_agrees
    [(1, 3); (2 ^ 53 + 1, 1); (-7, 2); (2 ^ 53 + 3, 1); (1, 2 ^ 1074);
     (1, 2 ^ 1075); (3, 2 ^ 1075); (1, 2 ^ 1080); (5, -3); (0, -5);
     (2 ^ 54 + 2, 4); (12345678901234567890123, 7); (123, 2 ^ 1070 * 3);
     (2 ^ 60 + 2 ^ 7, 1); (2 ^ 60 + 2 ^ 7 + 1, 1); (2 ^ 60 + 3 * 2 ^ 7, 1);
     (2 ^ 1024 - 2 ^ 970 - 1, 1); (221, 2); (-3, 2)] = true.
Proof. vm_compute. reflexivity. Qed.

Example conversion_matches_binary_normalize :
  forallb conv_agrees
    [1; -1; 224; 2 ^ 53; 2 ^ 53 + 1; 2 ^ 53 + 3; - (2 ^ 60 + 2 ^ 7);
     2 ^ 1023; 2 ^ 1024 - 2 ^ 970 - 1] = true.
Proof. vm_compute. reflexivity. Qed.

Example addition_matches_SFadd :
  forallb add_agrees
    [(1, 1); (-1, 1); (2 ^ 53, 1); (2 ^ 53, 3); (- 2 ^ 52, 1); (7, -15);
     (2 ^ 1023, 2 ^ 1024)] = true.
Proof. vm_compute. reflexivity. Qed.

Example multiplication_matches_SFmul :
  forallb mul_agrees
    [(1, 1); (3, -5); (2 ^ 53 + 1, 3); (-7, 2 ^ 60 + 1); (1, 2 ^ 1023);
     (2 ^ 1000, 2 ^ 100)] = true.
Proof. vm_compute. reflexivity. Qed.

Example overflow_raises :
  int_true_divide (2 ^ 1024 - 2 ^ 970) 1 =
  Raise (Raised OverflowError
           "integer division result too large for a float").
Proof. vm_compute. reflexivity. Qed.

Example one_and_a_half :
  to_spec (halves 3) = S754_finite false 6755399441055744 (-52).
Proof. vm_compute. reflexivity. Qed.

Example third_rounded_to_three_places :
  same_float (x <- int_true_divide 1 3 ;; round3 x)
             (SFdiv prec64 emax64 (spec_of_int 333) (spec_of_int 1000))
  = true.
Proof. vm_compute. reflexivity. Qed.

End RuntimeChecks.

(* ===================================================================== *)
(** ** Properties of the calculator                                       *)
(* ===================================================================== *)

Import RoundingFacts GridFacts LoopFacts.


(** C2 (as amended). For a layer with kernel_size >= 1, stride >= 1,
    dilation >= 1 and padding >= 0, the effective kernel size is
    (kernel_size - 1) * dilation + 1, and whenever the numerator
    input_size + 2 * padding - effective_kernel is below 2^53 in magnitude
    and the stride is below 2^1075, [compute_output_size] returns the
    floor of the exact rational quotient, plus one. *)
Theorem compute_output_size_floor (l : Layer) (input_size : Z) :
  1 <= kernel_size l -> 1 <= stride l -> 1 <= dilation l ->
  0 <= padding l ->
  Z.abs (input_size + 2 * padding l - get_effective_kernel_size l) < 2 ^ 53 ->
  stride l < 2 ^ 1075 ->
  get_effective_kernel_size l = (kernel_size l - 1) * dilation l + 1 /\
  compute_output_size l input_size = Ok (Spec.output_size l input_size).
Proof.
  intros Hk Hs Hd Hp Hnum Hstride. split; [reflexivity|].
  unfold compute_output_size, Spec.output_size.
  change (Spec.effective_kernel_size l) with (get_effective_kernel_size l).
  rewrite Qfloor_quotient by lia.
  pose proof (floor_true_divide
                (input_size + 2 * padding l - get_effective_kernel_size l)
                (stride l) Hnum ltac:(lia)) as H.
  destruct (int_true_divide _ (stride l)) as [q|e]; [|discriminate].
  cbn [bind] in *. rewrite H. reflexivity.
Qed.

Lemma compute_output_size_floor_witness :
  get_effective_kernel_size (Conv2DLayer 3 2 1 2 1) = (3 - 1) * 2 + 1 /\
  compute_output_size (Conv2DLayer 3 2 1 2 1) 224 =
  Ok (Spec.output_size (Conv2DLayer 3 2 1 2 1) 224).
Proof.
  apply (compute_output_size_floor (Conv2DLayer 3 2 1 2 1) 224);
    vm_compute; first [reflexivity | discriminate].
Defined.

(** C2, as first stated, fails: a 1x1 convolution of stride 1 on an input
    of size 2^53 + 2 has the exact output size 2^53 + 2, and the code,
    which divides in double precision before flooring, returns
    2^53 + 1. *)
Lemma compute_output_size_not_exact :
  let l := Conv2DLayer 1 1 0 1 1 in
  let input_size := 2 ^ 53 + 2 in
  1 <= kernel_size l /\ 1 <= stride l /\ 1 <= dilation l /\
  0 <= padding l /\
  Spec.output_size l input_size = 9007199254740994 /\
  compute_output_size l input_size = Ok 9007199254740993 /\
  compute_output_size l input_size <> Ok (Spec.output_size l input_size).
Proof.
  vm_compute. repeat split; try discriminate.
Qed.

(** C3 (as amended). Layer construction checks nothing: whatever integers
    are requested for kernel_size, stride and padding are stored as they
    are (and the dilation, for a convolution).  A request whose type is not
    recognised is answered with "Invalid layer type" and leaves the
    calculator as it was; whenever [add_layer] answers with a trace, the
    layer sequence is the old one followed by exactly the new layer, and
    the input dimensions are unchanged. *)
Theorem add_layer_unvalidated (ty : string) (k s p d : Z)
        (self : ReceptiveFieldCalculator) :
  (build_layer ty k s p d = None ->
   api_add_layer ty k s p d self = (self, JsonError "Invalid layer type" 400))
  /\
  (forall l, build_layer ty k s p d = Some l ->
     kernel_size l = k /\ stride l = s /\ padding l = p /\
     (isinstance_Conv2DLayer l = true -> dilation l = d) /\
     forall t, snd (api_add_layer ty k s p d self) = JsonTrace t ->
       layers (fst (api_add_layer ty k s p d self)) = layers self ++ [l] /\
       dims_of (fst (api_add_layer ty k s p d self)) = dims_of self).
Proof.
  split.
  - intros Hb. unfold api_add_layer. rewrite Hb. reflexivity.
  - intros l Hb.
    assert (Hfields : kernel_size l = k /\ stride l = s /\ padding l = p /\
                      (isinstance_Conv2DLayer l = true -> dilation l = d)).
    { unfold build_layer in Hb.
      destruct (String.eqb ty "conv");
        [injection Hb as <-; repeat split; reflexivity|].
      destruct (String.eqb ty "maxpool");
        [injection Hb as <-; repeat split; try reflexivity; discriminate|].
      destruct (String.eqb ty "avgpool");
        [injection Hb as <-; repeat split; try reflexivity; discriminate|].
      discriminate. }
    destruct Hfields as (Hk & Hs & Hp & Hd).
    repeat (split; [assumption|]).
    intros t _. apply api_add_layer_layers. exact Hb.
Qed.

Lemma add_layer_unvalidated_witness :
  api_add_layer "dense" 3 1 0 1 new =
    (new, JsonError "Invalid layer type" 400) /\
  layers (fst (api_add_layer "conv" (-1) 1 (-1) 0 new)) =
    layers new ++ [Conv2DLayer (-1) 1 (-1) 0 1].
Proof.
  split.
  - apply (proj1 (add_layer_unvalidated "dense" 3 1 0 1 new)). reflexivity.
  - pose proof (proj2 (add_layer_unvalidated "conv" (-1) 1 (-1) 0 new)
                  (Conv2DLayer (-1) 1 (-1) 0 1) eq_refl) as H.
    destruct H as (_ & _ & _ & _ & H).
    destruct (snd (api_add_layer "conv" (-1) 1 (-1) 0 new)) as [t| | |] eqn:E;
      [exact (proj1 (H t eq_refl)) | | |]; vm_compute in E; discriminate E.
Defined.

(** C3, as first stated, fails: a convolution with stride 0 is built and
    appended, the trace computation then raises, and the answer is an
    error while the layer stays in the sequence; a layer with a negative
    kernel size and negative padding is accepted and answered with a
    trace. *)
Lemma add_layer_accepts_invalid_layers :
  snd (api_add_layer "conv" 3 0 0 1 new) = JsonError "division by zero" 400 /\
  layers new = [] /\
  layers (fst (api_add_layer "conv" 3 0 0 1 new)) = [Conv2DLayer 3 0 0 1 1] /\
  (exists t, api_add_layer "conv" (-1) 1 (-1) 0 new =
             ({| rf := 1; jump := 1; start := halves 1;
                 layers := [Conv2DLayer (-1) 1 (-1) 0 1];
                 input_height := 224; input_width := 224;
                 input_channels := 3 |}, JsonTrace t)).
Proof.
  split; [vm_compute; reflexivity|].
  split; [reflexivity|].
  split; [reflexivity|].
  eexists. vm_compute. reflexivity.
Qed.




(** C5. After any sequence of [add_layer] and [set_input_dimensions]
    calls, from any calculator, [reset] gives exactly the default state (no
    layers, input 224 x 224 x 3), whose trace reports rf = 1, jump = 1,
    start = 0.5; resetting again changes nothing, and the result does not
    depend on the calls that came before. *)
Theorem reset_restores_default (cs cs' : list call)
        (self self' : ReceptiveFieldCalculator) :
  let after := fst (reset (run_calls cs self)) in
  after = new /\
  layers after = [] /\
  dims_of after = default_dimensions /\
  snd (compute_current_state after) = Ok default_trace /\
  fst (reset after) = after /\
  fst (reset (run_calls cs' self')) = after.
Proof.
  cbv zeta. change (fst (reset (run_calls cs self))) with new.
  change (fst (reset (run_calls cs' self'))) with new.
  repeat split.
Qed.


(** C7. Whatever the input channel count and whatever the layers, when
    the trace is computed every row has output_channels equal to its
    input_channels, equal to the declared input channels, and the final
    channels are the declared input channels. *)
Theorem channels_pass_through (self : ReceptiveFieldCalculator) (t : trace) :
  snd (compute_current_state self) = Ok t ->
  Forall (passes_channels (input_channels self)) (trace_layers t) /\
  channels (final_dimensions t) = input_channels self /\
  channels (input_dimensions t) = input_channels self.
Proof.
  unfold compute_current_state. cbn [snd].
  destruct (for_each loop_body (layers self) _) as [v|e] eqn:E;
    [|discriminate].
  cbn [bind].
  destruct (round3 (l_start v)) as [rd|e]; [|discriminate].
  cbn [bind]. intros [= <-].
  cbn [trace_layers final_dimensions input_dimensions channels].
  apply for_each_channels in E; [|constructor].
  cbn [l_current_channels l_results] in E. destruct E as [Hc Hall].
  repeat split; assumption.
Qed.

Lemma channels_pass_through_witness :
  exists t,
    snd (compute_current_state
           (run_calls [CallSetInputDimensions 64 48 16;
                       CallAddLayer (Conv2DLayer 3 1 1 2 1);
                       CallAddLayer (MaxPool2DLayer 2 2 0);
                       CallAddLayer (AvgPool2DLayer 3 1 0)] new)) = Ok t /\
    Forall (passes_channels 16) (trace_layers t) /\
    channels (final_dimensions t) = 16 /\
    channels (input_dimensions t) = 16.
Proof.
  eexists. split; [vm_compute; reflexivity|].
  apply (channels_pass_through
           (run_calls [CallSetInputDimensions 64 48 16;
                       CallAddLayer (Conv2DLayer 3 1 1 2 1);
                       CallAddLayer (MaxPool2DLayer 2 2 0);
                       CallAddLayer (AvgPool2DLayer 3 1 0)] new)).
  vm_compute. reflexivity.
Defined.

(** C8. For the default input 224 x 224 x 3 and no layers, the trace has
    rf = 1, jump = 1, start = 0.5, final dimensions equal to the input
    dimensions, and no rows. *)
Theorem default_state_trace :
  layers new = [] /\ dims_of new = default_dimensions /\
  compute_current_state new = (new, Ok default_trace) /\
  api_current_state new = (new, JsonTrace default_trace).
Proof.
  repeat split; vm_compute; reflexivity.
Qed.

(** The two traces of the example, by evaluation. *)
Lemma two_layer_example_traces :
  snd (add_layer (Conv2DLayer 3 1 0 1 1) new) =
    Ok {| trace_layers := [conv3_row];
          current_rf := 3; current_jump := 1; current_start := halves 3;
          input_dimensions := default_dimensions;
          final_dimensions :=
            {| height := 222; width := 222; channels := 3 |} |} /\
  snd (add_layer (MaxPool2DLayer 2 2 0)
         (fst (add_layer (Conv2DLayer 3 1 0 1 1) new))) =
    Ok {| trace_layers := [conv3_row; maxpool2_row];
          current_rf := 4; current_jump := 2; current_start := halves 4;
          input_dimensions := default_dimensions;
          final_dimensions :=
            {| height := 111; width := 111; channels := 3 |} |}.
Proof.
  split; vm_compute; reflexivity.
Qed.

(** C9 (as amended). From the default 224 x 224 input with no layers,
    adding a convolution with kernel 3, stride 1, padding 0, dilation 1
    gives a row with output 222 x 222, receptive field 3, jump 1 and
    start 1.5; adding a max pooling with kernel 2, stride 2, padding 0
    after it gives a second row with output 111 x 111 and the cumulative
    jump 2. *)
Theorem conv_then_maxpool_trace :
  let after_conv := add_layer (Conv2DLayer 3 1 0 1 1) new in
  let after_pool := add_layer (MaxPool2DLayer 2 2 0) (fst after_conv) in
  snd after_conv =
    Ok {| trace_layers := [conv3_row];
          current_rf := 3; current_jump := 1; current_start := halves 3;
          input_dimensions := default_dimensions;
          final_dimensions :=
            {| height := 222; width := 222; channels := 3 |} |} /\
  snd after_pool =
    Ok {| trace_layers := [conv3_row; maxpool2_row];
          current_rf := 4; current_jump := 2; current_start := halves 4;
          input_dimensions := default_dimensions;
          final_dimensions :=
            {| height := 111; width := 111; channels := 3 |} |} /\
  row_output_height conv3_row = 222 /\ row_output_width conv3_row = 222 /\
  row_receptive_field conv3_row = 3 /\ row_jump conv3_row = 1 /\
  row_start conv3_row = halves 3 /\
  row_output_height maxpool2_row = 111 /\
  row_output_width maxpool2_row = 111 /\
  row_jump maxpool2_row = 2.
Proof.
  cbv zeta.
  split; [exact (proj1 two_layer_example_traces)|].
  split; [exact (proj2 two_layer_example_traces)|].
  repeat split.
Qed.

(** C9, as first stated, fails: the row recorded for the convolution does
    not have start 1.0 (two halves); the update 0.5 + ((3 - 1)/2 - 0) * 1
    gives 1.5. *)
Lemma conv_start_is_not_one :
  ~ exists t r,
      snd (add_layer (Conv2DLayer 3 1 0 1 1) new) = Ok t /\
      trace_layers t = [r] /\
      row_output_height r = 222 /\ row_output_width r = 222 /\
      row_receptive_field r = 3 /\ row_jump r = 1 /\
      row_start r = halves 2.
Proof.
  intros (t & r & Ht & Hr & _ & _ & _ & _ & Hs).
  pose proof (proj1 two_layer_example_traces) as E.
  rewrite E in Ht. injection Ht as <-.
  cbn [trace_layers] in Hr. injection Hr as <-.
  vm_compute in Hs. discriminate Hs.
Qed.

(** Every layer [/api/add_layer] can build is a convolution or an
    undilated pooling layer, and requests keep the sequence so. *)
Lemma pooling_layer_undilated (c : string -> layer_class) (pool_type : string)
      (k s p : Z) :
  dilation (PoolingLayer_init c pool_type k s p) = 1 /\
  get_effective_kernel_size (PoolingLayer_init c pool_type k s p) = k.
Proof.
  split; [reflexivity|].
  unfold get_effective_kernel_size, PoolingLayer_init, Layer_init.
  cbn [kernel_size dilation]. ring.
Qed.

Lemma build_layer_undilated (ty : string) (k s p d : Z) (l : Layer) :
  build_layer ty k s p d = Some l -> pooling_undilated l.
Proof.
  unfold build_layer.
  destruct (String.eqb ty "conv"); [intros [= <-]; left; reflexivity|].
  destruct (String.eqb ty "maxpool").
  { intros [= <-]. right. split; [reflexivity|].
    apply pooling_layer_undilated. }
  destruct (String.eqb ty "avgpool"); [|discriminate].
  intros [= <-]. right. split; [reflexivity|].
  apply pooling_layer_undilated.
Qed.

Lemma handle_undilated (r : request) (self : ReceptiveFieldCalculator) :
  Forall pooling_undilated (layers self) ->
  Forall pooling_undilated (layers (fst (handle r self))).
Proof.
  intros H. destruct r as [h w c | ty k s p d | |]; cbn [handle].
  - rewrite api_set_input_dimensions_layers. exact H.
  - destruct (build_layer ty k s p d) as [l|] eqn:Hb.
    + rewrite (proj1 (api_add_layer_layers ty k s p d l self Hb)).
      apply Forall_app. split; [exact H|].
      constructor; [|constructor].
      eapply build_layer_undilated; eassumption.
    + unfold api_add_layer. rewrite Hb. exact H.
  - constructor.
  - exact H.
Qed.

Lemma serve_undilated (rs : list request) :
  forall self : ReceptiveFieldCalculator,
    Forall pooling_undilated (layers self) ->
    Forall pooling_undilated (layers (serve rs self)).
Proof.
  induction rs as [|r rs IH]; intros self H; cbn [serve].
  - exact H.
  - apply IH. apply handle_undilated. exact H.
Qed.

(** C10. A max or average pooling layer always stores dilation 1,
    whatever dilation the request carries, so its effective kernel size
    is its kernel size; a convolution stores the dilation requested; and
    in every calculator the routes can reach, each layer is a convolution
    or a pooling layer with dilation 1. *)
Theorem pooling_dilation_is_one (k s p d : Z) (rs : list request) :
  (build_layer "maxpool" k s p d = Some (MaxPool2DLayer k s p) /\
   dilation (MaxPool2DLayer k s p) = 1 /\
   get_effective_kernel_size (MaxPool2DLayer k s p) = k) /\
  (build_layer "avgpool" k s p d = Some (AvgPool2DLayer k s p) /\
   dilation (AvgPool2DLayer k s p) = 1 /\
   get_effective_kernel_size (AvgPool2DLayer k s p) = k) /\
  (build_layer "conv" k s p d = Some (Conv2DLayer k s p d 1) /\
   dilation (Conv2DLayer k s p d 1) = d) /\
  Forall pooling_undilated (layers (serve rs new)).
Proof.
  split; [split; [reflexivity | apply pooling_layer_undilated]|].
  split; [split; [reflexivity | apply pooling_layer_undilated]|].
  split; [split; reflexivity|].
  apply serve_undilated. constructor.
Qed.


(* ===================================================================== *)
(** ** Further properties: the shape of a trace                           *)
(* ===================================================================== *)

Module TraceFacts.

(** The result of [compute_current_state], as a scan. *)
Lemma trace_as_scan (self : ReceptiveFieldCalculator) :
  snd (compute_current_state self) =
  (out <- Spec.scan (Spec.initial (dims_of self)) (layers self) ;;
   Ok (trace_of (dims_of self) (fst out) (snd out))).
Proof.
  unfold compute_current_state. cbn [snd].
  change {| l_rf := 1; l_j := 1; l_start := halves 1; l_results := [];
            l_current_height := input_height self;
            l_current_width := input_width self;
            l_current_channels := input_channels self |}
    with (locals_of [] (Spec.initial (dims_of self))).
  rewrite for_each_scan by apply halves_one_on_grid.
  destruct (Spec.scan (Spec.initial (dims_of self)) (layers self))
    as [out|e] eqn:E; [|reflexivity].
  cbn [bind locals_of l_start].
  rewrite round3_on_grid
    by (eapply scan_on_grid; [|exact E]; apply halves_one_on_grid).
  reflexivity.
Qed.

Lemma trace_inversion (self : ReceptiveFieldCalculator) (t : trace) :
  snd (compute_current_state self) = Ok t ->
  exists rows fin,
    Spec.scan (Spec.initial (dims_of self)) (layers self) = Ok (rows, fin) /\
    t = trace_of (dims_of self) rows fin.
Proof.
  rewrite trace_as_scan.
  destruct (Spec.scan _ _) as [[rows fin]|e]; [|discriminate].
  cbn [bind fst snd]. intros [= <-]. exists rows, fin. split; reflexivity.
Qed.

(** What a successful step computed. *)
Lemma step_inversion (sc : Spec.scalars) (l : Layer)
      (sc' : Spec.scalars) (r : row) :
  Spec.step sc l = Ok (sc', r) ->
  exists st oh ow,
    start_update (Spec.s_start sc) (get_effective_kernel_size l)
                 (padding l) (Spec.s_jump sc) = Ok st /\
    compute_output_size l (Spec.s_height sc) = Ok oh /\
    compute_output_size l (Spec.s_width sc) = Ok ow /\
    sc' = {| Spec.s_rf :=
               Spec.s_rf sc + (get_effective_kernel_size l - 1) * Spec.s_jump sc;
             Spec.s_jump := Spec.s_jump sc * stride l;
             Spec.s_start := st;
             Spec.s_height := oh; Spec.s_width := ow;
             Spec.s_channels := Spec.s_channels sc |} /\
    row_descriptor r = layer_descriptor l /\
    row_receptive_field r = Spec.s_rf sc' /\
    row_jump r = Spec.s_jump sc' /\
    row_start r = st /\
    row_input r = {| height := Spec.s_height sc; width := Spec.s_width sc;
                     channels := Spec.s_channels sc |} /\
    row_output r = {| height := oh; width := ow;
                      channels := Spec.s_channels sc |}.
Proof.
  unfold Spec.step.
  change (Spec.start_next (Spec.s_start sc) (Spec.effective_kernel_size l)
            (padding l) (Spec.s_jump sc))
    with (start_update (Spec.s_start sc) (get_effective_kernel_size l)
            (padding l) (Spec.s_jump sc)).
  change (Spec.effective_kernel_size l) with (get_effective_kernel_size l).
  destruct (start_update _ _ _ _) as [st|e]; [|discriminate]. cbn [bind].
  destruct (compute_output_size l (Spec.s_height sc)) as [oh|e];
    [|discriminate]. cbn [bind].
  destruct (compute_output_size l (Spec.s_width sc)) as [ow|e];
    [|discriminate]. cbn [bind].
  intros [= <- <-]. exists st, oh, ow.
  repeat (split; [reflexivity|]). reflexivity.
Qed.

Lemma scan_cons_inversion (sc : Spec.scalars) (l : Layer) (ls : list Layer)
      (rows : list row) (fin : Spec.scalars) :
  Spec.scan sc (l :: ls) = Ok (rows, fin) ->
  exists sc' r rows',
    Spec.step sc l = Ok (sc', r) /\
    Spec.scan sc' ls = Ok (rows', fin) /\
    rows = r :: rows'.
Proof.
  cbn [Spec.scan].
  destruct (Spec.step sc l) as [[sc' r]|e]; [|discriminate]. cbn [bind fst].
  destruct (Spec.scan sc' ls) as [[rows' fin']|e] eqn:E; [|discriminate].
  cbn [bind fst snd]. intros [= <- <-].
  exists sc', r, rows'. split; [reflexivity|]. split; [exact E|reflexivity].
Qed.

(** The scan of a sequence with one more layer at the end. *)
Lemma scan_snoc (ls : list Layer) (l : Layer) :
  forall sc : Spec.scalars,
    Spec.scan sc (ls ++ [l]) =
    (out <- Spec.scan sc ls ;;
     sr <- Spec.step (snd out) l ;;
     Ok (fst out ++ [snd sr], fst sr)).
Proof.
  induction ls as [|x ls IH]; intros sc.
  - cbn [app Spec.scan bind fst snd].
    destruct (Spec.step sc l) as [[sc' r]|e]; reflexivity.
  - cbn [app Spec.scan].
    destruct (Spec.step sc x) as [[sc' r]|e]; [|reflexivity].
    cbn [bind fst snd]. rewrite IH.
    destruct (Spec.scan sc' ls) as [[rows fin]|e]; [|reflexivity].
    cbn [bind fst snd].
    destruct (Spec.step fin l) as [[sc'' r']|e]; reflexivity.
Qed.

Lemma scan_descriptors (ls : list Layer) :
  forall (sc fin : Spec.scalars) (rows : list row),
    Spec.scan sc ls = Ok (rows, fin) ->
    map row_descriptor rows = map layer_descriptor ls.
Proof.
  induction ls as [|l ls IH]; intros sc fin rows.
  - cbn [Spec.scan]. intros [= <- _]. reflexivity.
  - intros H. apply scan_cons_inversion in H as (sc' & r & rows' & Hs & Hr & ->).
    apply step_inversion in Hs as (st & oh & ow & _ & _ & _ & _ & Hd & _).
    cbn [map]. rewrite Hd. f_equal. eapply IH; eassumption.
Qed.

Lemma scan_chained (ls : list Layer) :
  forall (sc fin : Spec.scalars) (rows : list row),
    Spec.scan sc ls = Ok (rows, fin) ->
    chained {| height := Spec.s_height sc; width := Spec.s_width sc;
               channels := Spec.s_channels sc |}
            rows
            {| height := Spec.s_height fin; width := Spec.s_width fin;
               channels := Spec.s_channels fin |}.
Proof.
  induction ls as [|l ls IH]; intros sc fin rows.
  - cbn [Spec.scan]. intros [= <- <-]. reflexivity.
  - intros H. apply scan_cons_inversion in H as (sc' & r & rows' & Hs & Hr & ->).
    apply step_inversion in Hs
      as (st & oh & ow & _ & _ & _ & Hsc & _ & _ & _ & _ & Hin & Hout).
    cbn [chained]. split; [exact Hin|].
    rewrite Hout. specialize (IH _ _ _ Hr).
    rewrite Hsc in IH. exact IH.
Qed.

Lemma prod_strides_cons (l : Layer) (ls : list Layer) :
  prod_strides (l :: ls) = stride l * prod_strides ls.
Proof. reflexivity. Qed.

Lemma sum_scaled (c : Z) (xs : list Z) :
  fold_right Z.add 0 (map (Z.mul c) xs) = c * fold_right Z.add 0 xs.
Proof.
  induction xs as [|x xs IH]; cbn [map fold_right]; [ring|].
  rewrite IH. ring.
Qed.

Lemma rf_closed_cons (l : Layer) (ls : list Layer) :
  rf_closed (l :: ls) - 1 =
  (get_effective_kernel_size l - 1) + stride l * (rf_closed ls - 1).
Proof.
  assert (E : forall n : nat,
            fold_right Z.add 0
              (map (fun i =>
                      (get_effective_kernel_size (nth i (l :: ls) no_layer) - 1)
                      * prod_strides (firstn i (l :: ls)))
                   (seq 1 n)) =
            stride l *
            fold_right Z.add 0
              (map (fun i =>
                      (get_effective_kernel_size (nth i ls no_layer) - 1)
                      * prod_strides (firstn i ls))
                   (seq 0 n))).
  { intros n. rewrite <- seq_shift, map_map, <- sum_scaled, map_map.
    f_equal. apply map_ext. intros i. cbn [nth firstn].
    rewrite prod_strides_cons. ring. }
  unfold rf_closed. cbn [List.length seq map fold_right].
  rewrite E. cbn [nth firstn]. change (prod_strides []) with 1. ring.
Qed.

Lemma scan_jump_rf (ls : list Layer) :
  forall (sc fin : Spec.scalars) (rows : list row),
    Spec.scan sc ls = Ok (rows, fin) ->
    Spec.s_jump fin = Spec.s_jump sc * prod_strides ls /\
    Spec.s_rf fin = Spec.s_rf sc + Spec.s_jump sc * (rf_closed ls - 1).
Proof.
  induction ls as [|l ls IH]; intros sc fin rows.
  - cbn [Spec.scan]. intros [= _ <-]. unfold prod_strides, rf_closed.
    cbn. split; ring.
  - intros H. apply scan_cons_inversion in H as (sc' & r & rows' & Hs & Hr & ->).
    apply step_inversion in Hs as (st & oh & ow & _ & _ & _ & Hsc & _).
    destruct (IH _ _ _ Hr) as [Hj Hrf].
    rewrite Hsc in Hj, Hrf. cbn [Spec.s_jump Spec.s_rf] in Hj, Hrf.
    rewrite prod_strides_cons. split; [rewrite Hj; ring|].
    rewrite Hrf. rewrite (rf_closed_cons l ls). ring.
Qed.

End TraceFacts.

Import TraceFacts.

(** X1. [get_layer_summary] leaves the calculator as it is and, when it
    returns, gives one row per layer, in the order of the layers, each
    repeating the name, kernel size, stride, padding and dilation of its
    layer together with the effective kernel (kernel_size - 1) * dilation
    + 1. *)
Theorem layer_summary_mirrors_layers (self : ReceptiveFieldCalculator)
        (rows : list row) :
  snd (get_layer_summary self) = Ok rows ->
  fst (get_layer_summary self) = self /\
  map row_descriptor rows = map layer_descriptor (layers self) /\
  List.length rows = List.length (layers self).
Proof.
  unfold get_layer_summary.
  destruct (compute_current_state self) as [self' r] eqn:E.
  assert (Hself : self' = self)
    by (change self' with (fst (self', r)); rewrite <- E; reflexivity).
  assert (Hr : r = snd (compute_current_state self)) by (rewrite E; reflexivity).
  cbn [fst snd]. destruct r as [t|e]; [|discriminate].
  cbn [bind]. intros [= <-].
  symmetry in Hr. apply trace_inversion in Hr as (rows & fin & Hscan & ->).
  cbn [trace_of trace_layers].
  apply scan_descriptors in Hscan.
  split; [exact Hself|]. split; [exact Hscan|].
  rewrite <- (length_map row_descriptor), Hscan. apply length_map.
Qed.

Lemma layer_summary_mirrors_layers_witness :
  exists rows,
    snd (get_layer_summary
           (run_calls [CallAddLayer (Conv2DLayer 5 2 2 1 1);
                       CallAddLayer (AvgPool2DLayer 3 3 0)] new)) = Ok rows /\
    map row_descriptor rows =
      [("Conv2D", 5, 2, 2, 1, 5); ("AvgPool2D", 3, 3, 0, 1, 3)] /\
    List.length rows = 2%nat.
Proof.
  eexists. split; [vm_compute; reflexivity|].
  apply (layer_summary_mirrors_layers
           (run_calls [CallAddLayer (Conv2DLayer 5 2 2 1 1);
                       CallAddLayer (AvgPool2DLayer 3 3 0)] new)).
  vm_compute. reflexivity.
Defined.

(** X2. In every trace the rows chain: the first row takes the declared
    input dimensions, each next row takes as input exactly the output
    height, width and channels of the row before it, and the final
    dimensions are the output of the last row (the declared input when
    there is no layer). *)
Theorem trace_rows_chain (self : ReceptiveFieldCalculator) (t : trace) :
  snd (compute_current_state self) = Ok t ->
  input_dimensions t = dims_of self /\
  chained (dims_of self) (trace_layers t) (final_dimensions t).
Proof.
  intros H. apply trace_inversion in H as (rows & fin & Hscan & ->).
  split; [reflexivity|].
  apply scan_chained in Hscan. exact Hscan.
Qed.

Lemma trace_rows_chain_witness :
  exists t,
    snd (compute_current_state
           (run_calls [CallAddLayer (Conv2DLayer 5 2 2 1 1);
                       CallAddLayer (AvgPool2DLayer 3 3 0)] new)) = Ok t /\
    input_dimensions t = default_dimensions /\
    chained default_dimensions (trace_layers t) (final_dimensions t).
Proof.
  eexists. split; [vm_compute; reflexivity|].
  apply (trace_rows_chain
           (run_calls [CallAddLayer (Conv2DLayer 5 2 2 1 1);
                       CallAddLayer (AvgPool2DLayer 3 3 0)] new)).
  vm_compute. reflexivity.
Defined.

(** X3. In every trace the cumulative jump is the product of the strides
    of all layers, and the cumulative receptive field is 1 plus the sum,
    over the layers, of (effective kernel - 1) times the product of the
    strides of the layers before it. *)
Theorem trace_closed_forms (self : ReceptiveFieldCalculator) (t : trace) :
  snd (compute_current_state self) = Ok t ->
  current_jump t = prod_strides (layers self) /\
  current_rf t = rf_closed (layers self).
Proof.
  intros H. apply trace_inversion in H as (rows & fin & Hscan & ->).
  apply scan_jump_rf in Hscan as [Hj Hrf].
  cbn [trace_of current_jump current_rf]. rewrite Hj, Hrf.
  cbn [Spec.initial Spec.s_jump Spec.s_rf]. split; ring.
Qed.

Lemma trace_closed_forms_witness :
  exists t,
    snd (compute_current_state
           (run_calls [CallAddLayer (Conv2DLayer 3 2 1 2 1);
                       CallAddLayer (MaxPool2DLayer 2 2 0);
                       CallAddLayer (Conv2DLayer 3 1 1 1 1)] new)) = Ok t /\
    current_jump t = 2 * (2 * (1 * 1)) /\
    current_rf t = 1 + (4 * 1 + (1 * 2 + (2 * 4 + 0))).
Proof.
  eexists. split; [vm_compute; reflexivity|].
  apply (trace_closed_forms
           (run_calls [CallAddLayer (Conv2DLayer 3 2 1 2 1);
                       CallAddLayer (MaxPool2DLayer 2 2 0);
                       CallAddLayer (Conv2DLayer 3 1 1 1 1)] new)).
  vm_compute. reflexivity.
Defined.

(** X4. When the calculator has a trace and [add_layer] returns one, the
    new trace is the old rows followed by one row for the new layer; that
    row takes the old final dimensions as input, its receptive field is
    the old one plus (k_eff - 1) times the old jump, its jump is the old
    jump times the stride, and the new cumulative values and final
    dimensions are the ones of that row. *)
Theorem add_layer_extends_trace (self : ReceptiveFieldCalculator)
        (l : Layer) (t t' : trace) :
  snd (compute_current_state self) = Ok t ->
  snd (add_layer l self) = Ok t' ->
  exists r,
    trace_layers t' = trace_layers t ++ [r] /\
    row_descriptor r = layer_descriptor l /\
    row_input r = final_dimensions t /\
    row_output r = final_dimensions t' /\
    row_receptive_field r =
      current_rf t + (get_effective_kernel_size l - 1) * current_jump t /\
    row_jump r = current_jump t * stride l /\
    current_rf t' = row_receptive_field r /\
    current_jump t' = row_jump r /\
    current_start t' = row_start r /\
    input_dimensions t' = input_dimensions t.
Proof.
  intros Ht Ht'. unfold add_layer in Ht'.
  rewrite trace_as_scan in Ht, Ht'. cbn [layers] in Ht'.
  change (dims_of {| rf := rf self; jump := jump self; start := start self;
                     layers := layers self ++ [l];
                     input_height := input_height self;
                     input_width := input_width self;
                     input_channels := input_channels self |})
    with (dims_of self) in Ht'.
  rewrite scan_snoc in Ht'.
  destruct (Spec.scan (Spec.initial (dims_of self)) (layers self))
    as [[rows fin]|e]; [|discriminate].
  cbn [bind fst snd] in Ht, Ht'. injection Ht as <-.
  destruct (Spec.step fin l) as [[sc' r]|e] eqn:Es; [|discriminate].
  cbn [bind fst snd] in Ht'. injection Ht' as <-.
  apply step_inversion in Es
    as (st & oh & ow & _ & _ & _ & Hsc & Hd & Hrf & Hj & Hst & Hin & Hout).
  exists r. cbn [trace_of trace_layers final_dimensions current_rf
                 current_jump current_start input_dimensions].
  rewrite Hd, Hrf, Hj, Hst, Hin, Hout, Hsc.
  cbn [Spec.s_rf Spec.s_jump Spec.s_start Spec.s_height Spec.s_width
       Spec.s_channels].
  repeat (split; [reflexivity|]). reflexivity.
Qed.

Lemma add_layer_extends_trace_witness :
  exists t t',
    snd (compute_current_state (fst (add_layer (Conv2DLayer 3 2 1 1 1) new)))
      = Ok t /\
    snd (add_layer (MaxPool2DLayer 2 2 0)
           (fst (add_layer (Conv2DLayer 3 2 1 1 1) new))) = Ok t' /\
    exists r,
      trace_layers t' = trace_layers t ++ [r] /\
      row_descriptor r = layer_descriptor (MaxPool2DLayer 2 2 0) /\
      row_input r = final_dimensions t /\
      row_output r = final_dimensions t' /\
      row_receptive_field r =
        current_rf t
        + (get_effective_kernel_size (MaxPool2DLayer 2 2 0) - 1)
          * current_jump t /\
      row_jump r = current_jump t * stride (MaxPool2DLayer 2 2 0) /\
      current_rf t' = row_receptive_field r /\
      current_jump t' = row_jump r /\
      current_start t' = row_start r /\
      input_dimensions t' = input_dimensions t.
Proof.
  eexists. eexists.
  split; [vm_compute; reflexivity|].
  split; [vm_compute; reflexivity|].
  apply (add_layer_extends_trace
           (fst (add_layer (Conv2DLayer 3 2 1 1 1) new))
           (MaxPool2DLayer 2 2 0)); vm_compute; reflexivity.
Defined.

(** X5. A failing trace stays failing: when [compute_current_state]
    raises on a calculator, [add_layer] of any layer on that calculator
    raises the same exception (and still appends the layer). *)
Theorem add_layer_keeps_failing (self : ReceptiveFieldCalculator)
        (l : Layer) (e : raised) :
  snd (compute_current_state self) = Raise e ->
  snd (add_layer l self) = Raise e /\
  layers (fst (add_layer l self)) = layers self ++ [l].
Proof.
  intros H. split; [|reflexivity].
  unfold add_layer. rewrite trace_as_scan in *. cbn [layers].
  change (dims_of {| rf := rf self; jump := jump self; start := start self;
                     layers := layers self ++ [l];
                     input_height := input_height self;
                     input_width := input_width self;
                     input_channels := input_channels self |})
    with (dims_of self).
  rewrite scan_snoc.
  destruct (Spec.scan (Spec.initial (dims_of self)) (layers self))
    as [[rows fin]|e0]; [discriminate|].
  cbn [bind] in *. exact H.
Qed.

Lemma add_layer_keeps_failing_witness :
  snd (add_layer (Conv2DLayer 3 1 1 1 1)
         (fst (add_layer (MaxPool2DLayer 2 0 0) new))) =
    Raise (Raised ZeroDivisionError "division by zero") /\
  layers (fst (add_layer (Conv2DLayer 3 1 1 1 1)
                 (fst (add_layer (MaxPool2DLayer 2 0 0) new)))) =
    [MaxPool2DLayer 2 0 0] ++ [Conv2DLayer 3 1 1 1 1].
Proof.
  apply (add_layer_keeps_failing
           (fst (add_layer (MaxPool2DLayer 2 0 0) new))
           (Conv2DLayer 3 1 1 1 1)).
  vm_compute. reflexivity.
Defined.

(** A layer of stride 0 stops the scan. *)
Lemma step_stride_zero (sc : Spec.scalars) (l : Layer) :
  stride l = 0 -> exists e, Spec.step sc l = Raise e.
Proof.
  intros Hs. unfold Spec.step.
  destruct (Spec.start_next _ _ _ _) as [st|e]; [|eexists; reflexivity].
  cbn [bind]. unfold compute_output_size, int_true_divide.
  rewrite Hs. cbn [Z.eqb bind]. eexists. reflexivity.
Qed.

Lemma scan_stride_zero (ls : list Layer) (l : Layer) :
  In l ls -> stride l = 0 ->
  forall sc : Spec.scalars, exists e, Spec.scan sc ls = Raise e.
Proof.
  intros Hin Hs. induction ls as [|x ls IH]; [contradiction|].
  intros sc. cbn [Spec.scan].
  destruct (Spec.step sc x) as [[sc' r]|e] eqn:Ex;
    [|eexists; reflexivity].
  cbn [bind fst]. destruct Hin as [-> | Hin].
  - destruct (step_stride_zero sc l Hs) as [e He]. congruence.
  - destruct (IH Hin sc') as [e He]. rewrite He. eexists. reflexivity.
Qed.

(** X6. A layer of stride 0 anywhere in the sequence makes every trace
    computation raise: [compute_current_state] returns no trace, the route
    that serves the current state lets the exception through, and the
    calculator is left as it is (the layer stays until a reset). *)
Theorem stride_zero_blocks_trace (self : ReceptiveFieldCalculator)
        (l : Layer) :
  In l (layers self) -> stride l = 0 ->
  exists e,
    compute_current_state self = (self, Raise e) /\
    api_current_state self = (self, Unhandled e).
Proof.
  intros Hin Hs.
  destruct (scan_stride_zero (layers self) l Hin Hs
              (Spec.initial (dims_of self))) as [e He].
  exists e.
  assert (Hc : snd (compute_current_state self) = Raise e).
  { rewrite trace_as_scan, He. reflexivity. }
  assert (E : compute_current_state self = (self, Raise e)).
  { rewrite <- Hc. reflexivity. }
  split; [exact E|].
  unfold api_current_state. rewrite E. reflexivity.
Qed.

Lemma stride_zero_blocks_trace_witness :
  exists e,
    compute_current_state
      (run_calls [CallAddLayer (Conv2DLayer 3 1 1 1 1);
                  CallAddLayer (MaxPool2DLayer 2 0 0)] new) =
      (run_calls [CallAddLayer (Conv2DLayer 3 1 1 1 1);
                  CallAddLayer (MaxPool2DLayer 2 0 0)] new, Raise e) /\
    api_current_state
      (run_calls [CallAddLayer (Conv2DLayer 3 1 1 1 1);
                  CallAddLayer (MaxPool2DLayer 2 0 0)] new) =
      (run_calls [CallAddLayer (Conv2DLayer 3 1 1 1 1);
                  CallAddLayer (MaxPool2DLayer 2 0 0)] new, Unhandled e).
Proof.
  apply (stride_zero_blocks_trace
           (run_calls [CallAddLayer (Conv2DLayer 3 1 1 1 1);
                       CallAddLayer (MaxPool2DLayer 2 0 0)] new)
           (MaxPool2DLayer 2 0 0)).
  - right. left. reflexivity.
  - reflexivity.
Defined.

(** X7. [compute_output_size] raises ZeroDivisionError exactly when the
    stride is 0; with any other stride it returns a size or raises
    OverflowError (the quotient does not fit a double), and nothing
    else. *)
Theorem compute_output_size_errors (l : Layer) (input_size : Z) :
  (stride l = 0 <->
   compute_output_size l input_size =
   Raise (Raised ZeroDivisionError "division by zero")) /\
  (stride l <> 0 ->
   (exists n, compute_output_size l input_size = Ok n) \/
   compute_output_size l input_size =
   Raise (Raised OverflowError
            "integer division result too large for a float")).
Proof.
  unfold compute_output_size, int_true_divide.
  destruct (stride l =? 0) eqn:E.
  - apply Z.eqb_eq in E. split; [|intros H; contradiction].
    split; [intros _; reflexivity | intros _; exact E].
  - apply Z.eqb_neq in E.
    destruct (overflow_units <=? _) eqn:Eo.
    + split; [split; [intros H; contradiction | discriminate]|].
      intros _. right. reflexivity.
    + split; [split; [intros H; contradiction | discriminate]|].
      intros _. left. eexists. reflexivity.
Qed.

Lemma compute_output_size_errors_witness :
  compute_output_size (MaxPool2DLayer 2 0 0) 224 =
    Raise (Raised ZeroDivisionError "division by zero") /\
  ((exists n, compute_output_size (MaxPool2DLayer 2 2 0) 224 = Ok n) \/
   compute_output_size (MaxPool2DLayer 2 2 0) 224 =
   Raise (Raised OverflowError
            "integer division result too large for a float")).
Proof.
  split.
  - apply (proj1 (compute_output_size_errors (MaxPool2DLayer 2 0 0) 224)).
    reflexivity.
  - apply (proj2 (compute_output_size_errors (MaxPool2DLayer 2 2 0) 224)).
    discriminate.
Defined.

Lemma scan_starts_on_grid (ls : list Layer) :
  forall (sc fin : Spec.scalars) (rows : list row),
    on_grid half_bits (Spec.s_start sc) ->
    Spec.scan sc ls = Ok (rows, fin) ->
    Forall (fun r => on_grid half_bits (row_start r)) rows.
Proof.
  induction ls as [|l ls IH]; intros sc fin rows Hg.
  - cbn [Spec.scan]. intros [= <- _]. constructor.
  - intros H. apply scan_cons_inversion in H as (sc' & r & rows' & Hs & Hr & ->).
    pose proof (step_on_grid sc l (sc', r) Hg Hs) as Hg'. cbn [fst] in Hg'.
    apply step_inversion in Hs
      as (st & oh & ow & _ & _ & _ & Hsc & _ & _ & _ & Hst & _).
    constructor.
    + rewrite Hst. rewrite Hsc in Hg'. exact Hg'.
    + eapply IH; eassumption.
Qed.

(** X8. Every start a trace reports, per row and cumulative, is infinite,
    not a number, or a finite double that is a whole multiple of one
    half; on such values [round(_, 3)] returns its argument, so the
    rounding in the trace never changes a reported start. *)
Theorem reported_starts_are_half_integral
        (self : ReceptiveFieldCalculator) (t : trace) :
  snd (compute_current_state self) = Ok t ->
  on_grid half_bits (current_start t) /\
  round3 (current_start t) = Ok (current_start t) /\
  Forall (fun r => on_grid half_bits (row_start r) /\
                   round3 (row_start r) = Ok (row_start r))
         (trace_layers t).
Proof.
  intros H. apply trace_inversion in H as (rows & fin & Hscan & ->).
  cbn [trace_of current_start trace_layers].
  pose proof (scan_on_grid (layers self) (Spec.initial (dims_of self))
                (rows, fin) halves_one_on_grid Hscan) as Hfin.
  cbn [snd] in Hfin.
  split; [exact Hfin|]. split; [apply round3_on_grid; exact Hfin|].
  pose proof (scan_starts_on_grid (layers self)
                (Spec.initial (dims_of self)) fin rows
                halves_one_on_grid Hscan) as Hrows.
  eapply Forall_impl; [|exact Hrows].
  intros r Hr. split; [exact Hr | apply round3_on_grid; exact Hr].
Qed.

Lemma reported_starts_are_half_integral_witness :
  exists t,
    snd (compute_current_state
           (run_calls [CallAddLayer (Conv2DLayer 4 2 1 1 1);
                       CallAddLayer (MaxPool2DLayer 3 2 1)] new)) = Ok t /\
    on_grid half_bits (current_start t) /\
    round3 (current_start t) = Ok (current_start t) /\
    Forall (fun r => on_grid half_bits (row_start r) /\
                     round3 (row_start r) = Ok (row_start r))
           (trace_layers t).
Proof.
  eexists. split; [vm_compute; reflexivity|].
  apply (reported_starts_are_half_integral
           (run_calls [CallAddLayer (Conv2DLayer 4 2 1 1 1);
                       CallAddLayer (MaxPool2DLayer 3 2 1)] new)).
  vm_compute. reflexivity.
Defined.

Lemma scan_rf_grows (ls : list Layer) :
  forall (sc fin : Spec.scalars) (rows : list row),
    Forall positive_layer ls ->
    1 <= Spec.s_jump sc ->
    Spec.scan sc ls = Ok (rows, fin) ->
    rf_grows (Spec.s_rf sc) rows /\
    Spec.s_rf sc <= Spec.s_rf fin /\ 1 <= Spec.s_jump fin.
Proof.
  induction ls as [|l ls IH]; intros sc fin rows Hpos Hj.
  - cbn [Spec.scan]. intros [= <- <-]. cbn [rf_grows]. lia.
  - intros H. apply scan_cons_inversion in H as (sc' & r & rows' & Hs & Hr & ->).
    apply step_inversion in Hs
      as (st & oh & ow & _ & _ & _ & Hsc & _ & Hrf & Hjr & _).
    inversion Hpos as [|? ? (Hk & Hst & Hd) Hrest]; subst x l0.
    assert (Hke : 0 <= get_effective_kernel_size l - 1)
      by (unfold get_effective_kernel_size; nia).
    assert (Hj' : 1 <= Spec.s_jump sc')
      by (rewrite Hsc; cbn [Spec.s_jump]; nia).
    assert (Hrf' : Spec.s_rf sc <= Spec.s_rf sc')
      by (rewrite Hsc; cbn [Spec.s_rf]; nia).
    destruct (IH sc' fin rows' Hrest Hj' Hr) as (Hg & Hle & Hjf).
    cbn [rf_grows]. rewrite Hrf, Hjr.
    repeat split; try assumption; lia.
Qed.

(** X9. For layers with kernel size, stride and dilation at least 1, the
    receptive field never shrinks from one row to the next (starting from
    1), every row's jump is at least 1, and the cumulative receptive
    field and jump are at least 1. *)
Theorem receptive_field_never_shrinks
        (self : ReceptiveFieldCalculator) (t : trace) :
  Forall positive_layer (layers self) ->
  snd (compute_current_state self) = Ok t ->
  rf_grows 1 (trace_layers t) /\ 1 <= current_rf t /\ 1 <= current_jump t.
Proof.
  intros Hpos H. apply trace_inversion in H as (rows & fin & Hscan & ->).
  apply scan_rf_grows in Hscan; [|exact Hpos | cbn; lia].
  exact Hscan.
Qed.

Lemma receptive_field_never_shrinks_witness :
  exists t,
    snd (compute_current_state
           (run_calls [CallAddLayer (Conv2DLayer 3 2 1 2 1);
                       CallAddLayer (MaxPool2DLayer 1 2 0)] new)) = Ok t /\
    rf_grows 1 (trace_layers t) /\ 1 <= current_rf t /\ 1 <= current_jump t.
Proof.
  eexists. split; [vm_compute; reflexivity|].
  apply (receptive_field_never_shrinks
           (run_calls [CallAddLayer (Conv2DLayer 3 2 1 2 1);
                       CallAddLayer (MaxPool2DLayer 1 2 0)] new)).
  - repeat constructor; vm_compute; discriminate.
  - vm_compute. reflexivity.
Defined.

Lemma step_same_geometry (sc : Spec.scalars) (l1 l2 : Layer) :
  same_geometry l1 l2 ->
  map_result (fun sr => (fst sr, forget_name (snd sr))) (Spec.step sc l1) =
  map_result (fun sr => (fst sr, forget_name (snd sr))) (Spec.step sc l2).
Proof.
  destruct l1 as [c1 n1 k1 s1 p1 d1], l2 as [c2 n2 k2 s2 p2 d2].
  unfold same_geometry. cbn [kernel_size stride padding dilation].
  intros (-> & -> & -> & ->).
  unfold Spec.step, Spec.effective_kernel_size, compute_output_size,
    get_effective_kernel_size.
  cbn [kernel_size stride padding dilation name].
  destruct (Spec.start_next _ _ _ _) as [st|e]; [|reflexivity]. cbn [bind].
  destruct (int_true_divide (Spec.s_height sc + _ - _) s2) as [q|e];
    [|reflexivity]. cbn [bind].
  destruct (math_floor q) as [f|e]; [|reflexivity]. cbn [bind].
  destruct (int_true_divide (Spec.s_width sc + _ - _) s2) as [q'|e];
    [|reflexivity]. cbn [bind].
  destruct (math_floor q') as [f'|e]; reflexivity.
Qed.

Lemma scan_same_geometry (ls1 ls2 : list Layer) :
  Forall2 same_geometry ls1 ls2 ->
  forall sc : Spec.scalars,
    map_result (fun out => (map forget_name (fst out), snd out))
               (Spec.scan sc ls1) =
    map_result (fun out => (map forget_name (fst out), snd out))
               (Spec.scan sc ls2).
Proof.
  induction 1 as [|l1 l2 ls1 ls2 Hg _ IH]; intros sc; [reflexivity|].
  cbn [Spec.scan].
  pose proof (step_same_geometry sc l1 l2 Hg) as Hs.
  destruct (Spec.step sc l1) as [[sc1 r1]|e1],
           (Spec.step sc l2) as [[sc2 r2]|e2];
    cbn [map_result fst snd] in Hs; try discriminate Hs.
  - assert (Hpair : (sc1, forget_name r1) = (sc2, forget_name r2))
      by congruence.
    pose proof (f_equal fst Hpair) as Hsc. pose proof (f_equal snd Hpair) as Hr.
    cbn [fst snd] in Hsc, Hr. subst sc2. clear Hs Hpair.
    cbn [bind fst snd].
    specialize (IH sc1).
    destruct (Spec.scan sc1 ls1) as [[rows1 fin1]|e1],
             (Spec.scan sc1 ls2) as [[rows2 fin2]|e2];
      cbn [map_result fst snd] in IH; try discriminate IH.
    + assert (Hp : (map forget_name rows1, fin1)
                   = (map forget_name rows2, fin2)) by congruence.
      pose proof (f_equal fst Hp) as Hrows. pose proof (f_equal snd Hp) as Hf.
      cbn [fst snd] in Hrows, Hf. subst fin2.
      cbn [bind map_result fst snd map].
      rewrite Hr, Hrows. reflexivity.
    + cbn [bind map_result]. exact IH.
  - cbn [bind map_result]. congruence.
Qed.

(** X10. The class and the name of a layer do not enter the geometry:
    two layer sequences that agree, layer by layer, on kernel size,
    stride, padding and dilation give the same trace up to the names in
    the rows, or raise the same exception. *)
Theorem trace_depends_on_geometry_only
        (self : ReceptiveFieldCalculator) (ls1 ls2 : list Layer) :
  Forall2 same_geometry ls1 ls2 ->
  map_result forget_names
             (snd (compute_current_state (with_layers self ls1))) =
  map_result forget_names
             (snd (compute_current_state (with_layers self ls2))).
Proof.
  intros Hg. rewrite !trace_as_scan. cbn [with_layers layers].
  change (dims_of (with_layers self ls1)) with (dims_of self).
  change (dims_of (with_layers self ls2)) with (dims_of self).
  pose proof (scan_same_geometry ls1 ls2 Hg (Spec.initial (dims_of self)))
    as H.
  destruct (Spec.scan (Spec.initial (dims_of self)) ls1) as [[rows1 fin1]|e1],
           (Spec.scan (Spec.initial (dims_of self)) ls2) as [[rows2 fin2]|e2];
    cbn [map_result fst snd] in H; try discriminate H.
  - assert (Hp : (map forget_name rows1, fin1)
                 = (map forget_name rows2, fin2)) by congruence.
    pose proof (f_equal fst Hp) as Hrows. pose proof (f_equal snd Hp) as Hf.
    cbn [fst snd] in Hrows, Hf. subst fin2.
    cbn [bind map_result fst snd].
    unfold forget_names, trace_of. cbn [trace_layers current_rf current_jump
      current_start input_dimensions final_dimensions].
    rewrite Hrows. reflexivity.
  - cbn [bind map_result]. congruence.
Qed.

Lemma trace_depends_on_geometry_only_witness :
  map_result forget_names
    (snd (compute_current_state
            (with_layers new [MaxPool2DLayer 3 2 1; Conv2DLayer 2 2 0 1 4]))) =
  map_result forget_names
    (snd (compute_current_state
            (with_layers new [Conv2DLayer 3 2 1 1 1; AvgPool2DLayer 2 2 0]))).
Proof.
  apply (trace_depends_on_geometry_only new
           [MaxPool2DLayer 3 2 1; Conv2DLayer 2 2 0 1 4]
           [Conv2DLayer 3 2 1 1 1; AvgPool2DLayer 2 2 0]).
  repeat constructor.
Defined.

Lemma handle_keeps_stored_scalars (r : request)
      (self : ReceptiveFieldCalculator) :
  rf self = 1 /\ jump self = 1 /\ start self = halves 1 ->
  rf (fst (handle r self)) = 1 /\ jump (fst (handle r self)) = 1 /\
  start (fst (handle r self)) = halves 1.
Proof.
  intros H. destruct r as [h w c | ty k s p d | |]; cbn [handle].
  - unfold api_set_input_dimensions.
    destruct ((h <=? 0) || (w <=? 0) || (c <=? 0)); exact H.
  - unfold api_add_layer.
    destruct (build_layer ty k s p d); exact H.
  - repeat split.
  - exact H.
Qed.

Lemma run_call_keeps_stored_scalars (c : call)
      (self : ReceptiveFieldCalculator) :
  rf self = 1 /\ jump self = 1 /\ start self = halves 1 ->
  rf (run_call c self) = 1 /\ jump (run_call c self) = 1 /\
  start (run_call c self) = halves 1.
Proof. intros H. destruct c; exact H. Qed.

(** X11. The attributes [rf], [jump] and [start] of the calculator object
    are written by [reset] alone: after any sequence of requests, and
    after any sequence of [add_layer] and [set_input_dimensions] calls,
    they still hold 1, 1 and 0.5, whatever the layers are; the values for
    the layers exist in the returned trace only. *)
Theorem stored_scalars_stay_at_reset_values
        (rs : list request) (cs : list call) :
  (rf (serve rs new) = 1 /\ jump (serve rs new) = 1 /\
   start (serve rs new) = halves 1) /\
  (rf (run_calls cs new) = 1 /\ jump (run_calls cs new) = 1 /\
   start (run_calls cs new) = halves 1).
Proof.
  split.
  - assert (H : rf new = 1 /\ jump new = 1 /\ start new = halves 1)
      by (repeat split).
    revert H. generalize new as self. induction rs as [|r rs IH];
      intros self H; cbn [serve]; [exact H|].
    apply IH. apply handle_keeps_stored_scalars. exact H.
  - assert (H : rf new = 1 /\ jump new = 1 /\ start new = halves 1)
      by (repeat split).
    revert H. generalize new as self. induction cs as [|c cs IH];
      intros self H; cbn [run_calls]; [exact H|].
    apply IH. apply run_call_keeps_stored_scalars. exact H.
Qed.








(* ===================================================================== *)
(** ** Further properties: sizes and starts as numbers                    *)
(* ===================================================================== *)

Module SizeFacts.

(** The output size for a positive stride and a 53-bit numerator. *)
Lemma output_size_exact (l : Layer) (input_size : Z) :
  0 < stride l < 2 ^ 1075 ->
  Z.abs (input_size + 2 * padding l - get_effective_kernel_size l) < 2 ^ 53 ->
  compute_output_size l input_size =
  Ok ((input_size + 2 * padding l - get_effective_kernel_size l) / stride l
      + 1).
Proof.
  intros Hs Hn. unfold compute_output_size.
  pose proof (floor_true_divide _ (stride l) Hn Hs) as H.
  destruct (int_true_divide _ (stride l)) as [q|e]; [|discriminate].
  cbn [bind] in *. rewrite H. reflexivity.
Qed.

(** A quotient from [2^1024] on does not fit a double. *)
Lemma round_units_overflows (N D : Z) :
  0 < D -> overflow_units * D <= N -> overflow_units <= round_units N D.
Proof.
  intros HD HN. unfold round_units.
  set (t := N / D).
  assert (HK : overflow_units = 2 ^ 2098) by reflexivity.
  assert (HKpos : 0 < overflow_units) by (rewrite HK; apply pow2_pos; lia).
  assert (Ht : overflow_units <= t).
  { unfold t. apply Z.div_le_lower_bound; lia. }
  assert (Hlog : 2098 <= Z.log2 t).
  { rewrite <- (Z.log2_pow2 2098) by lia. rewrite <- HK.
    apply Z.log2_le_mono. exact Ht. }
  assert (Hs : drop_bits t = Z.log2 t - 52)
    by (unfold drop_bits, mant_bits; lia).
  rewrite Hs. set (s := Z.log2 t - 52).
  assert (Hs0 : 0 <= s) by (unfold s; lia).
  pose proof (pow2_pos s Hs0) as HP.
  pose proof (Z.log2_spec t ltac:(lia)) as [Hlo _].
  replace (Z.log2 t) with (52 + s) in Hlo by (unfold s; lia).
  rewrite Z.pow_add_r in Hlo by lia.
  assert (HtD : t * D <= N).
  { unfold t. rewrite Z.mul_comm. apply Z.mul_div_le. lia. }
  assert (HN0 : 0 <= N) by nia.
  pose proof (rne_near N (D * 2 ^ s) HN0 ltac:(nia)) as [Hnear _].
  set (m := rne N (D * 2 ^ s)) in *.
  assert (Hm : 2 ^ 52 <= m).
  { assert (H52 : 0 < 2 ^ 52) by (apply pow2_pos; lia).
    assert (H : 0 <= (D * 2 ^ s) * (2 * (m - 2 ^ 52) + 1)) by nia.
    apply nonneg_factor in H; [lia | nia]. }
  assert (Hbig : 2 ^ 2098 <= 2 ^ 52 * 2 ^ s).
  { rewrite <- Z.pow_add_r by lia. apply Z.pow_le_mono_r; unfold s; lia. }
  rewrite HK. nia.
Qed.

End SizeFacts.

Import SizeFacts ExactFacts.

(** X14. Within 53 bits the float update of [start] is exact: from
    start = a / 2, with |k_eff - 1|, |padding|, |j|, the difference
    k_eff - 1 - 2 * padding, its product with j and the new value all at
    most 2^53, [start + ((k_eff - 1) / 2 - p) * j] returns the double
    (a + (k_eff - 1 - 2 * padding) * j) / 2, the rational value, and
    raises nothing. *)
Theorem start_update_exact (a k_eff p j : Z) :
  Z.abs (k_eff - 1) <= 2 ^ 53 -> Z.abs p <= 2 ^ 53 -> Z.abs j <= 2 ^ 53 ->
  Z.abs (k_eff - 1 - 2 * p) <= 2 ^ 53 ->
  Z.abs ((k_eff - 1 - 2 * p) * j) <= 2 ^ 53 ->
  Z.abs (a + (k_eff - 1 - 2 * p) * j) <= 2 ^ 53 ->
  start_update (halves a) k_eff p j =
  Ok (halves (a + (k_eff - 1 - 2 * p) * j)).
Proof.
  intros Hk Hp Hj Hd Hm Hs.
  exact (start_next_exact a k_eff p j Hk Hp Hj Hd Hm Hs).
Qed.

Lemma start_update_exact_witness :
  start_update (halves 3) 7 1 4 = Ok (halves (3 + (7 - 1 - 2 * 1) * 4)).
Proof.
  apply (start_update_exact 3 7 1 4); vm_compute; discriminate.
Defined.

(** X15. A layer of stride 1 whose padding is half of its effective
    kernel minus one (a size-preserving convolution) leaves the final
    height, width and channels, the jump and the start of the trace as
    they are, and adds 2 * padding * jump to the receptive field, as long
    as the values involved fit 53 bits. *)
Theorem same_padding_layer_keeps_geometry
        (self : ReceptiveFieldCalculator) (l : Layer) (t : trace) (a : Z) :
  snd (compute_current_state self) = Ok t ->
  stride l = 1 ->
  get_effective_kernel_size l - 1 = 2 * padding l ->
  0 <= padding l <= 2 ^ 52 ->
  current_start t = halves a -> Z.abs a <= 2 ^ 53 ->
  Z.abs (current_jump t) <= 2 ^ 53 ->
  Z.abs (height (final_dimensions t) - 1) < 2 ^ 53 ->
  Z.abs (width (final_dimensions t) - 1) < 2 ^ 53 ->
  exists t',
    snd (add_layer l self) = Ok t' /\
    final_dimensions t' = final_dimensions t /\
    current_jump t' = current_jump t /\
    current_start t' = current_start t /\
    current_rf t' = current_rf t + 2 * padding l * current_jump t.
Proof.
  intros Ht Hs Hk Hp Hst Ha Hj Hh Hw.
  apply trace_inversion in Ht as (rows & fin & Hscan & ->).
  cbn [trace_of current_start current_jump current_rf final_dimensions
       height width] in *.
  assert (H52 : 2 ^ 53 = 2 * 2 ^ 52) by reflexivity.
  assert (Hstart : Spec.start_next (Spec.s_start fin)
                     (Spec.effective_kernel_size l) (padding l)
                     (Spec.s_jump fin) = Ok (Spec.s_start fin)).
  { change (Spec.effective_kernel_size l) with (get_effective_kernel_size l).
    rewrite Hst.
    rewrite (start_next_exact a (get_effective_kernel_size l) (padding l)
               (Spec.s_jump fin)).
    - do 2 f_equal. rewrite Hk. ring.
    - lia.
    - lia.
    - exact Hj.
    - rewrite Hk. replace (2 * padding l - 2 * padding l) with 0 by ring.
      cbn. lia.
    - rewrite Hk. replace ((2 * padding l - 2 * padding l) * Spec.s_jump fin)
        with 0 by ring. cbn. lia.
    - rewrite Hk.
      replace (a + (2 * padding l - 2 * padding l) * Spec.s_jump fin)
        with a by ring. exact Ha. }
  assert (Hsize : forall x, Z.abs (x - 1) < 2 ^ 53 ->
                            compute_output_size l x = Ok x).
  { intros x Hx.
    rewrite output_size_exact.
    - rewrite Hs, Z.div_1_r. f_equal. lia.
    - rewrite Hs. split; [lia|]. apply (Z.pow_lt_mono_r 2 0 1075); lia.
    - replace (x + 2 * padding l - get_effective_kernel_size l)
        with (x - 1) by lia. exact Hx. }
  eexists. split.
  - unfold add_layer. rewrite trace_as_scan. cbn [layers].
    change (dims_of {| rf := rf self; jump := jump self; start := start self;
                       layers := layers self ++ [l];
                       input_height := input_height self;
                       input_width := input_width self;
                       input_channels := input_channels self |})
      with (dims_of self).
    rewrite scan_snoc, Hscan. cbn [bind fst snd].
    unfold Spec.step. rewrite Hstart. cbn [bind].
    rewrite (Hsize _ Hh), (Hsize _ Hw). cbn [bind fst snd].
    reflexivity.
  - cbn [trace_of final_dimensions current_jump current_start current_rf
         Spec.s_rf Spec.s_jump Spec.s_start Spec.s_height Spec.s_width
         Spec.s_channels].
    change (Spec.effective_kernel_size l) with (get_effective_kernel_size l).
    rewrite Hs, Hk.
    split; [destruct fin; reflexivity|].
    split; [ring|]. split; [reflexivity | ring].
Qed.

Lemma same_padding_layer_keeps_geometry_witness :
  exists t t',
    snd (compute_current_state (fst (add_layer (MaxPool2DLayer 2 2 0) new)))
      = Ok t /\
    snd (add_layer (Conv2DLayer 3 1 2 2 1)
           (fst (add_layer (MaxPool2DLayer 2 2 0) new))) = Ok t' /\
    final_dimensions t' = final_dimensions t /\
    current_jump t' = current_jump t /\
    current_start t' = current_start t /\
    current_rf t' = current_rf t + 2 * 2 * current_jump t.
Proof.
  eexists.
  destruct (same_padding_layer_keeps_geometry
              (fst (add_layer (MaxPool2DLayer 2 2 0) new))
              (Conv2DLayer 3 1 2 2 1) _ 2
              ltac:(vm_compute; reflexivity)
              ltac:(reflexivity) ltac:(reflexivity)
              ltac:(vm_compute; split; discriminate)
              ltac:(vm_compute; reflexivity)
              ltac:(vm_compute; discriminate)
              ltac:(vm_compute; discriminate)
              ltac:(vm_compute; reflexivity)
              ltac:(vm_compute; reflexivity)) as (t' & H).
  exists t'. split; [vm_compute; reflexivity|]. exact H.
Defined.





(** X18. When the exact quotient of the output-size formula is 2^1024 or
    more in magnitude, [compute_output_size] returns no size: the
    division raises OverflowError. *)
Theorem output_size_overflow (l : Layer) (input_size : Z) :
  stride l <> 0 ->
  2 ^ 1024 * Z.abs (stride l)
  <= Z.abs (input_size + 2 * padding l - get_effective_kernel_size l) ->
  compute_output_size l input_size =
  Raise (Raised OverflowError
           "integer division result too large for a float").
Proof.
  intros Hs Hn. unfold compute_output_size, int_true_divide.
  destruct (stride l =? 0) eqn:E; [apply Z.eqb_eq in E; contradiction|].
  set (a := input_size + 2 * padding l - get_effective_kernel_size l) in *.
  assert (Hu : overflow_units = 2 ^ 1024 * one_units).
  { unfold overflow_units, one_units, unit_bits.
    rewrite <- Z.pow_add_r by lia. reflexivity. }
  assert (Hov : overflow_units
                <= round_units (Z.abs a * one_units) (Z.abs (stride l))).
  { apply round_units_overflows; [lia|].
    rewrite Hu. pose proof one_units_pos. nia. }
  apply Z.leb_le in Hov. rewrite Hov. reflexivity.
Qed.

Lemma output_size_overflow_witness :
  compute_output_size (MaxPool2DLayer 1 1 0) (2 ^ 1024 + 1) =
  Raise (Raised OverflowError
           "integer division result too large for a float").
Proof.
  apply (output_size_overflow (MaxPool2DLayer 1 1 0) (2 ^ 1024 + 1));
    vm_compute; discriminate.
Defined.

(* ===================================================================== *)
(** ** Further properties: the printed form of a layer                    *)
(* ===================================================================== *)

Module StrFacts.

Example py_str_int_samples :
  py_str_int 0 = "0" /\ py_str_int 224 = "224" /\ py_str_int (-12) = "-12".
Proof. repeat split. Qed.

Example layer_str_samples :
  layer_str (Conv2DLayer 3 1 0 2 1) = Some "Conv2D(k=3, s=1, p=0, d=2)" /\
  layer_str (MaxPool2DLayer 2 2 0) = Some "MaxPool2D(k=2, s=2, p=0)" /\
  layer_str (AvgPool2DLayer 3 1 (-1)) = Some "AvgPool2D(k=3, s=1, p=-1)".
Proof. repeat split. Qed.

Lemma uint_free_of (c : ascii) (d : Decimal.uint) :
  free_of c "0123456789" = true ->
  free_of c (NilEmpty.string_of_uint d) = true.
Proof.
  intros Hc. cbn [free_of] in Hc.
  repeat (apply andb_prop in Hc as [? Hc]).
  induction d; cbn [NilEmpty.string_of_uint free_of]; try reflexivity;
    rewrite IHd, andb_true_r; assumption.
Qed.

Lemma py_str_int_free_of (c : ascii) (z : Z) :
  free_of c "-0123456789" = true -> free_of c (py_str_int z) = true.
Proof.
  intros Hc. cbn [free_of] in Hc. apply andb_prop in Hc as [Hm Hd].
  assert (Hu : forall d, free_of c (NilZero.string_of_uint d) = true).
  { intros d. pose proof (uint_free_of c d Hd) as H.
    destruct d; try exact H.
    cbn [NilZero.string_of_uint free_of].
    cbn [free_of] in Hd. apply andb_prop in Hd as [H0 _].
    rewrite H0. reflexivity. }
  unfold py_str_int. destruct (Z.to_int z) as [d|d];
    cbn [NilZero.string_of_int free_of]; [apply Hu|].
  rewrite Hm, Hu. reflexivity.
Qed.

Lemma py_str_int_inj (a b : Z) : py_str_int a = py_str_int b -> a = b.
Proof.
  unfold py_str_int. intros H. apply DecimalZ.to_int_inj.
  assert (Hn : forall z, Z.to_int z <> Decimal.Pos Decimal.Nil /\
                         Z.to_int z <> Decimal.Neg Decimal.Nil).
  { intros [|p|p]; cbn [Z.to_int]; split; try discriminate;
      intros [= E]; exact (Unsigned.to_uint_nonnil p E). }
  pose proof (NilZero.isi (Z.to_int a) (proj1 (Hn a)) (proj2 (Hn a))) as Ha.
  pose proof (NilZero.isi (Z.to_int b) (proj1 (Hn b)) (proj2 (Hn b))) as Hb.
  rewrite H in Ha. rewrite Ha in Hb. injection Hb as Hb. exact Hb.
Qed.

(** Two strings that continue with [c] after a [c]-free part split at the
    same place. *)
Lemma append_split (c : ascii) (a b x y : string) :
  free_of c a = true -> free_of c b = true ->
  String.append a (String c x) = String.append b (String c y) ->
  a = b /\ x = y.
Proof.
  revert b. induction a as [|a0 a IH]; intros [|b0 b] Ha Hb;
    cbn [String.append free_of] in *.
  - intros [= ->]. split; reflexivity.
  - intros [= <- _]. rewrite Ascii.eqb_refl in Hb. discriminate.
  - intros [= -> _]. rewrite Ascii.eqb_refl in Ha. discriminate.
  - apply andb_prop in Ha as [_ Ha]. apply andb_prop in Hb as [_ Hb].
    intros [= -> H]. destruct (IH b Ha Hb H) as [-> ->].
    split; reflexivity.
Qed.

Lemma decimal_then (c : ascii) (a b : Z) (x y : string) :
  free_of c "-0123456789" = true ->
  String.append (py_str_int a) (String c x) =
  String.append (py_str_int b) (String c y) ->
  a = b /\ x = y.
Proof.
  intros Hc H.
  apply append_split in H as [Hab Hxy];
    try (apply py_str_int_free_of; exact Hc).
  split; [apply py_str_int_inj; exact Hab | exact Hxy].
Qed.

Lemma append_same_head (p x y : string) :
  String.append p x = String.append p y -> x = y.
Proof.
  induction p as [|c p IH]; cbn [String.append]; [auto|].
  intros [= H]. auto.
Qed.

Lemma Conv2DLayer_str_inj (l1 l2 : Layer) :
  Conv2DLayer_str l1 = Conv2DLayer_str l2 -> same_geometry l1 l2.
Proof.
  unfold Conv2DLayer_str, same_geometry.
  intros H. apply (append_same_head "Conv2D(k=") in H.
  apply decimal_then in H as [Hk H]; [|reflexivity].
  injection H as H.
  apply decimal_then in H as [Hs H]; [|reflexivity].
  injection H as H.
  apply decimal_then in H as [Hp H]; [|reflexivity].
  injection H as H.
  apply decimal_then in H as [Hd _]; [|reflexivity].
  repeat split; assumption.
Qed.

Lemma PoolingLayer_str_inj (pool_type : string) (l1 l2 : Layer) :
  PoolingLayer_str pool_type l1 = PoolingLayer_str pool_type l2 ->
  kernel_size l1 = kernel_size l2 /\ stride l1 = stride l2 /\
  padding l1 = padding l2.
Proof.
  unfold PoolingLayer_str. intros H. apply append_same_head in H.
  cbn [String.append] in H. injection H as H.
  apply decimal_then in H as [Hk H]; [|reflexivity].
  injection H as H.
  apply decimal_then in H as [Hs H]; [|reflexivity].
  injection H as H.
  apply decimal_then in H as [Hp _]; [|reflexivity].
  repeat split; assumption.
Qed.

Lemma Some_inj {A : Type} (a b : A) : Some a = Some b -> a = b.
Proof. intros [= H]. exact H. Qed.

End StrFacts.

Import StrFacts.

(** X19. For the layers the add route builds, the printed form tells the
    layers apart: every such layer has one, and two of them print alike
    only when they are the same layer (same class, kernel size, stride,
    padding and stored dilation). *)
Theorem layer_str_injective_on_built_layers
        (ty1 ty2 : string) (k1 s1 p1 d1 k2 s2 p2 d2 : Z) (l1 l2 : Layer) :
  build_layer ty1 k1 s1 p1 d1 = Some l1 ->
  build_layer ty2 k2 s2 p2 d2 = Some l2 ->
  (exists text, layer_str l1 = Some text) /\
  (layer_str l1 = layer_str l2 -> l1 = l2).
Proof.
  unfold build_layer. intros H1 H2.
  destruct (String.eqb ty1 "conv");
    [|destruct (String.eqb ty1 "maxpool");
      [|destruct (String.eqb ty1 "avgpool"); [|discriminate]]];
    apply Some_inj in H1; subst l1;
    (split; [eexists; reflexivity|]);
    (destruct (String.eqb ty2 "conv");
     [|destruct (String.eqb ty2 "maxpool");
       [|destruct (String.eqb ty2 "avgpool"); [|discriminate]]]);
    apply Some_inj in H2; subst l2;
    cbn [layer_str class_of Conv2DLayer MaxPool2DLayer AvgPool2DLayer
         PoolingLayer_init Layer_init];
    intros H; apply Some_inj in H;
    try (unfold Conv2DLayer_str, PoolingLayer_str in H;
         cbn [String.append] in H; discriminate H).
  - apply Conv2DLayer_str_inj in H as (Hk & Hs & Hp & Hd).
    unfold Conv2DLayer, Layer_init in *.
    cbn [kernel_size stride padding dilation] in *.
    subst. reflexivity.
  - apply PoolingLayer_str_inj in H as (Hk & Hs & Hp).
    unfold MaxPool2DLayer, PoolingLayer_init, Layer_init in *.
    cbn [kernel_size stride padding] in *.
    subst. reflexivity.
  - apply PoolingLayer_str_inj in H as (Hk & Hs & Hp).
    unfold AvgPool2DLayer, PoolingLayer_init, Layer_init in *.
    cbn [kernel_size stride padding] in *.
    subst. reflexivity.
Qed.

Lemma layer_str_injective_on_built_layers_witness :
  (exists text, layer_str (MaxPool2DLayer 2 2 0) = Some text) /\
  (layer_str (MaxPool2DLayer 2 2 0) = layer_str (MaxPool2DLayer 2 2 0) ->
   MaxPool2DLayer 2 2 0 = MaxPool2DLayer 2 2 0).
Proof.
  apply (layer_str_injective_on_built_layers
           "maxpool" "maxpool" 2 2 0 5 2 2 0 1); reflexivity.
Defined.


(* ===================================================================== *)
(** ** Further properties: when nothing raises                            *)
(* ===================================================================== *)

Module TotalityFacts.











End TotalityFacts.

Import TotalityFacts.


